(** * whatsapp-python-chatbot: the relay pipeline of [script.py]

    A shallow embedding of the webhook relay ([split_message],
    [load_conversation_history], [save_conversation_history],
    [get_gemini_response], [send_whatsapp_message], [webhook]) and the
    properties its specification states about it.

    Python strings are sequences of Unicode code points; a code point is
    an [N] and a string a [list N].  JSON documents are a tagged union with
    the dynamic typing of the Python operations the handler applies to them
    written out.  File system, generation service and transport are an
    explicit world: a state that is threaded through the handler together
    with the trace of the calls it makes. *)

From Stdlib Require Import String Ascii List ZArith NArith QArith Lia Bool.
Import ListNotations.

Local Open Scope Z_scope.

(** ** Strings *)

Definition char := N.
Definition str := list char.

(** A literal of the source, code point by code point. *)
Definition lit (s : string) : str := map N_of_ascii (list_ascii_of_string s).

Definition len {A} (l : list A) : Z := Z.of_nat (List.length l).

Definition nl : char := 10%N.
Definition sp : char := 32%N.
Definition underscore : char := 95%N.

Definition str_eqb (a b : str) : bool :=
  if list_eq_dec N.eq_dec a b then true else false.

(** [str.isspace] on one character: the white space table of CPython
    ([_PyUnicode_IsWhitespace]), which [str.split()] and [str.strip()] use. *)
Definition is_space (c : char) : bool :=
  ((9 <=? c) && (c <=? 13) || (28 <=? c) && (c <=? 32)
   || (c =? 133) || (c =? 160) || (c =? 5760)
   || (8192 <=? c) && (c <=? 8202)
   || (c =? 8232) || (c =? 8233) || (c =? 8239) || (c =? 8287)
   || (c =? 12288))%N.

(** [sep.join(parts)] for a one-character separator. *)
Fixpoint join (sep : char) (parts : list str) : str :=
  match parts with
  | [] => []
  | [p] => p
  | p :: rest => p ++ sep :: join sep rest
  end.

(** [s.split(sep)] for a one-character separator: never empty. *)
Fixpoint split_on (sep : char) (s : str) : list str :=
  match s with
  | [] => [[]]
  | c :: s' =>
      if N.eqb c sep then [] :: split_on sep s'
      else match split_on sep s' with
           | [] => [[c]]
           | p :: ps => (c :: p) :: ps
           end
  end.

(** [s.split()]: the maximal runs of characters that are not white space;
    [acc] is the run read so far. *)
Fixpoint words_from (acc : str) (s : str) : list str :=
  match s with
  | [] => match acc with [] => [] | _ => [acc] end
  | c :: s' =>
      if is_space c
      then match acc with
           | [] => words_from [] s'
           | _ => acc :: words_from [] s'
           end
      else words_from (acc ++ [c]) s'
  end.

Definition words (s : str) : list str := words_from [] s.

(** [s.strip()]. *)
Fixpoint lstrip (s : str) : str :=
  match s with
  | [] => []
  | c :: s' => if is_space c then lstrip s' else s
  end.

Definition strip (s : str) : str := rev (lstrip (rev (lstrip s))).

(** ** The message segmenter: [split_message] *)

(** The three accumulators of [split_message]. *)
Record chunker := mkChunker {
  chunks : list str;
  current_chunk : list str;
  current_line_count : Z
}.

(** The block that closes a full chunk and appends one line; the source
    repeats it verbatim at lines 107-112, 117-122 and 124-129. *)
Definition add_line (max_lines : Z) (st : chunker) (line : str) : chunker :=
  let st1 :=
    if max_lines <=? current_line_count st
    then mkChunker (chunks st ++ [join nl (current_chunk st)]) [] 0
    else st in
  mkChunker (chunks st1) (current_chunk st1 ++ [line])
            (current_line_count st1 + 1).

(** The state of the word loop of a long paragraph. *)
Record packer := mkPacker {
  pk_chunker : chunker;
  current_line : list str;
  current_length : Z
}.

(** One iteration of [for word in words] (lines 103-114). *)
Definition pack_word (max_lines max_chars_per_line : Z)
    (p : packer) (word : str) : packer :=
  if current_length p + len word + 1 <=? max_chars_per_line
  then mkPacker (pk_chunker p) (current_line p ++ [word])
                (current_length p + (len word + 1))
  else mkPacker (add_line max_lines (pk_chunker p) (join sp (current_line p)))
                [word] (len word).

(** One iteration of [for paragraph in paragraphs] (lines 96-129). *)
Definition split_paragraph (max_lines max_chars_per_line : Z)
    (st : chunker) (paragraph : str) : chunker :=
  if max_chars_per_line <? len paragraph
  then
    let p := fold_left (pack_word max_lines max_chars_per_line)
                       (words paragraph) (mkPacker st [] 0) in
    match current_line p with
    | [] => pk_chunker p
    | _ :: _ => add_line max_lines (pk_chunker p) (join sp (current_line p))
    end
  else add_line max_lines st paragraph.

Definition split_message (text : str) (max_lines max_chars_per_line : Z)
    : list str :=
  let st := fold_left (split_paragraph max_lines max_chars_per_line)
                      (split_on nl text) (mkChunker [] [] 0) in
  match current_chunk st with
  | [] => chunks st
  | _ :: _ => chunks st ++ [join nl (current_chunk st)]
  end.

(** The call of the handler: [split_message(gemini_reply)] with the
    defaults [max_lines=3, max_chars_per_line=100]. *)
Definition split_message_default (text : str) : list str :=
  split_message text 3 100.

(** ** JSON values and the Python operations applied to them *)

#[local] Set Warnings "-register-all".

(** What [request.json] and [json.load] produce.  A [dict] is the list of
    its items in insertion order; a lookup takes the first item of a key. *)
Inductive json :=
| JNull
| JBool (b : bool)
| JInt (z : Z)
| JFloat (q : Q)
| JStr (s : str)
| JList (l : list json)
| JDict (d : list (str * json)).

Inductive exn :=
| AttributeError | TypeError | KeyError | NameError
| FileNotFoundError | JSONDecodeError | OSError | ServiceError.

Inductive result (A : Type) :=
| Ok (a : A)
| Raise (e : exn).
Arguments Ok {A} a.
Arguments Raise {A} e.

Definition rbind {A B} (r : result A) (k : A -> result B) : result B :=
  match r with
  | Ok a => k a
  | Raise e => Raise e
  end.

Declare Scope py_scope.
Delimit Scope py_scope with py.
Notation "x <-? r ;; k" := (rbind r (fun x => k))
  (at level 61, r at next level, right associativity) : py_scope.

(** [bool(v)]. *)
Definition truthy (v : json) : bool :=
  match v with
  | JNull => false
  | JBool b => b
  | JInt z => negb (z =? 0)
  | JFloat q => negb (Qeq_bool q 0)
  | JStr s => match s with [] => false | _ :: _ => true end
  | JList l => match l with [] => false | _ :: _ => true end
  | JDict d => match d with [] => false | _ :: _ => true end
  end.

Fixpoint dict_get (d : list (str * json)) (k : str) : option json :=
  match d with
  | [] => None
  | (k', v) :: d' => if str_eqb k' k then Some v else dict_get d' k
  end.

(** [v.get(k, default)]: only a [dict] has the method. *)
Definition py_get (v : json) (k : str) (default : json) : result json :=
  match v with
  | JDict d => Ok (match dict_get d k with Some x => x | None => default end)
  | _ => Raise AttributeError
  end.

(** [v[k]] for a string [k]. *)
Definition py_getitem (v : json) (k : str) : result json :=
  match v with
  | JDict d => match dict_get d k with Some x => Ok x | None => Raise KeyError end
  | _ => Raise TypeError
  end.

(** [v == k] for a string [k]. *)
Definition py_eq_str (v : json) (k : str) : bool :=
  match v with
  | JStr s => str_eqb s k
  | _ => false
  end.

Fixpoint starts_with (needle hay : str) : bool :=
  match needle, hay with
  | [], _ => true
  | _ :: _, [] => false
  | a :: n', b :: h' => N.eqb a b && starts_with n' h'
  end.

Fixpoint contains (needle hay : str) : bool :=
  starts_with needle hay
  || match hay with
     | [] => false
     | _ :: h' => contains needle h'
     end.

(** [k in v] for a string [k]: key of a dict, element of a list,
    substring of a string; the other values are not containers. *)
Definition py_in (k : str) (v : json) : result bool :=
  match v with
  | JDict d => Ok (match dict_get d k with Some _ => true | None => false end)
  | JList l => Ok (existsb (fun x => py_eq_str x k) l)
  | JStr s => Ok (contains k s)
  | _ => Raise TypeError
  end.

(** [for c in v]: the characters of a string, the elements of a list, the
    keys of a dict. *)
Definition py_iter (v : json) : result (list json) :=
  match v with
  | JStr s => Ok (map (fun c => JStr [c]) s)
  | JList l => Ok l
  | JDict d => Ok (map (fun kv => JStr (fst kv)) d)
  | _ => Raise TypeError
  end.

(** ** The world of the handler *)

(** What a history file holds as [json.load] sees it. *)
Inductive file :=
| Undecodable
| Document (j : json).

Inductive entry :=
| Absent
| Denied
| Holds (f : file).

(** The calls the handler makes to its collaborators, in order. *)
Inductive event :=
| EvLoad (file_path : str)
| EvSave (file_path : str) (history : json)
| EvStartChat (history : list json) (message : json)
| EvGenerateContent (message : json)
| EvPost (payload : json)
| EvSleep (lo hi : Q).

Record world := mkWorld {
  files : str -> entry;
  trace : list event
}.

(** The first structured candidate of a response of the service, as
    [candidates[0].content.parts[0].text] sees it. *)
Inductive candidate :=
| CandText (s : str)
| CandMalformed
| CandRaises.

Inductive text_field :=
| NoText
| TextRaises
| Text (s : str).

Record response := mkResponse {
  resp_text : text_field;
  resp_candidates : option candidate
}.

Inductive api_result :=
| ApiRaises
| ApiReturns (r : option response).

(** What the module reads from its surroundings: the Unicode table behind
    [str.isalnum], the two credentials of the environment, and the answers
    of the generation service and of the transport (the [n]-th POST of the
    request). *)
Record env := mkEnv {
  isalnum : char -> bool;
  GEMINI_API_KEY : option str;
  WASENDER_API_TOKEN : option str;
  gemini : list json -> json -> api_result;
  http_post : nat -> json -> bool
}.

(** [bool(os.getenv(...))]. *)
Definition configured (v : option str) : bool :=
  match v with
  | Some (_ :: _) => true
  | _ => false
  end.

(** Computations over the world that may raise. *)
Definition M (A : Type) := world -> result A * world.

Definition ret {A} (a : A) : M A := fun w => (Ok a, w).
Definition raise {A} (e : exn) : M A := fun w => (Raise e, w).
Definition lift {A} (r : result A) : M A := fun w => (r, w).

Definition bind {A B} (m : M A) (k : A -> M B) : M B :=
  fun w =>
    match m w with
    | (Ok a, w') => k a w'
    | (Raise e, w') => (Raise e, w')
    end.

Notation "x <- m ;; k" := (bind m (fun x => k))
  (at level 61, m at next level, right associativity) : py_scope.
Notation "m ;;; k" := (bind m (fun _ => k))
  (at level 61, right associativity) : py_scope.

Definition emit (e : event) : M unit :=
  fun w => (Ok tt, mkWorld (files w) (trace w ++ [e])).

Definition write_file (p : str) (f : file) : M unit :=
  fun w =>
    (Ok tt, mkWorld (fun q => if str_eqb q p then Holds f else files w q)
                    (trace w)).

(** [try: m except Exception: handler]. *)
Definition try_except {A} (m : M A) (handler : exn -> M A) : M A :=
  fun w =>
    match m w with
    | (Ok a, w') => (Ok a, w')
    | (Raise e, w') => handler e w'
    end.

Local Open Scope py_scope.

(** ** The persona loaded at start-up (lines 36-56) *)

Definition DEFAULT_PERSONA_DESCRIPTION : str :=
  lit "You are a helpful assistant.".
Definition DEFAULT_PERSONA_NAME : str := lit "Assistant".
Definition BASE_PROMPT : str :=
  lit "You are a helpful and concise AI assistant replying in a WhatsApp chat. Do not use Markdown formatting. Keep your answers short, friendly, and easy to read. If your response is longer than 3 lines, split it into multiple messages using 
 every 3 lines. Each 
 means a new WhatsApp message. Avoid long paragraphs or unnecessary explanations.".

(** [with open(PERSONA_FILE_PATH, 'r') as f: json.load(f)] on the state of
    the persona file. *)
Definition read_persona_file (persona_file : entry) : result json :=
  match persona_file with
  | Absent => Raise FileNotFoundError
  | Denied => Raise OSError
  | Holds Undecodable => Raise JSONDecodeError
  | Holds (Document j) => Ok j
  end.

(** A value inside an f-string: a string stands for itself, any other
    value for what [str()] makes of it, which [render] supplies. *)
Definition py_format (render : json -> str) (v : json) : str :=
  match v with
  | JStr s => s
  | _ => render v
  end.

(** The [try] block of lines 42-55: [(PERSONA_DESCRIPTION, PERSONA_NAME)]
    after it.  The only statements that can raise come before the first
    assignment, so an exception leaves both defaults in place. *)
Definition load_persona (render : json -> str) (persona_file : entry)
    : str * json :=
  match
    (persona_data <-? read_persona_file persona_file ;;
     custom_description <-? py_get persona_data (lit "description")
                              (JStr DEFAULT_PERSONA_DESCRIPTION) ;;
     base_prompt <-? py_get persona_data (lit "base_prompt")
                       (JStr BASE_PROMPT) ;;
     name <-? py_get persona_data (lit "name") (JStr DEFAULT_PERSONA_NAME) ;;
     Ok (py_format render base_prompt ++ [nl; nl]
           ++ py_format render custom_description,
         name))%py
  with
  | Ok persona => persona
  | Raise _ => (DEFAULT_PERSONA_DESCRIPTION, JStr DEFAULT_PERSONA_NAME)
  end.

(** ** The history store *)

Definition CONVERSATIONS_DIR : str := lit "conversations".

(** [os.path.join(CONVERSATIONS_DIR, f"{user_id}.json")]: an absolute
    second component replaces the first. *)
Definition file_path (user_id : str) : str :=
  let name := user_id ++ lit ".json" in
  match name with
  | 47%N :: _ => name
  | _ => CONVERSATIONS_DIR ++ 47%N :: name
  end.

(** [with open(file_path, 'r') as f: json.load(f)]. *)
Definition open_json_load (p : str) : M json :=
  fun w =>
    match files w p with
    | Absent => (Raise FileNotFoundError, w)
    | Denied => (Raise OSError, w)
    | Holds Undecodable => (Raise JSONDecodeError, w)
    | Holds (Document j) => (Ok j, w)
    end.

(** [with open(file_path, 'w') as f: json.dump(history, f, indent=2)]. *)
Definition open_json_dump (p : str) (j : json) : M unit :=
  fun w =>
    match files w p with
    | Denied => (Raise OSError, w)
    | _ => write_file p (Document j) w
    end.

Definition has_key (d : list (str * json)) (k : str) : bool :=
  match dict_get d k with
  | Some _ => true
  | None => false
  end.

(** [isinstance(item, dict) and 'role' in item and 'parts' in item]. *)
Definition is_turn (item : json) : bool :=
  match item with
  | JDict d => has_key d (lit "role") && has_key d (lit "parts")
  | _ => false
  end.

Definition load_conversation_history (user_id : str) : M (list json) :=
  let p := file_path user_id in
  emit (EvLoad p) ;;;
  try_except
    (history <- open_json_load p ;;
     match history with
     | JList l => if forallb is_turn l then ret l else ret []
     | _ => ret []
     end)
    (fun e =>
       match e with
       | FileNotFoundError => ret []
       | JSONDecodeError => ret []
       | _ => ret []
       end).

Definition save_conversation_history (user_id : str) (history : list json)
    : M unit :=
  let p := file_path user_id in
  emit (EvSave p (JList history)) ;;;
  try_except (open_json_dump p (JList history)) (fun _ => ret tt).

(** ** The reply generator *)

Definition apology_no_key : str :=
  lit "Sorry, I'm having trouble connecting to my brain right now (API key issue).".
Definition apology_unusual : str :=
  lit "I received an unusual response structure from Gemini. Please try again.".
Definition apology_empty : str :=
  lit "I received an empty or unexpected response from Gemini. Please try again.".
Definition apology_trouble : str :=
  lit "I'm having trouble processing that request with my AI brain. Please try again later.".

(** [message_text[:200]] of the log line: only sequences can be sliced. *)
Definition py_slice (v : json) : result unit :=
  match v with
  | JStr _ | JList _ => Ok tt
  | _ => Raise TypeError
  end.

(** The call to the service: [model.start_chat(history=...)] followed by
    [chat.send_message], or [model.generate_content] on an empty history. *)
Definition call_gemini (E : env) (message_text : json)
    (conversation_history : list json) : M (option response) :=
  match conversation_history with
  | _ :: _ => emit (EvStartChat conversation_history message_text)
  | [] => emit (EvGenerateContent message_text)
  end ;;;
  match gemini E conversation_history message_text with
  | ApiRaises => raise ServiceError
  | ApiReturns r => ret r
  end.

Definition get_gemini_response (E : env) (message_text : json)
    (conversation_history : list json) : M str :=
  if negb (configured (GEMINI_API_KEY E)) then ret apology_no_key
  else
    try_except
      (lift (py_slice message_text) ;;;
       response <- call_gemini E message_text conversation_history ;;
       match response with
       | None => ret apology_empty
       | Some r =>
           match resp_text r with
           | TextRaises => raise ServiceError
           | Text (c :: s) => ret (strip (c :: s))
           | _ =>
               match resp_candidates r with
               | Some (CandText s) => ret (strip s)
               | Some CandMalformed => ret apology_unusual
               | Some CandRaises => raise ServiceError
               | None => ret apology_empty
               end
           end
       end)
      (fun _ => ret apology_trouble).

(** ** The transport *)

Definition whatsapp_suffix : str := lit "@s.whatsapp.net".

(** [recipient_number.split('@')[0]]. *)
Definition py_split_at_head (v : json) : result json :=
  match v with
  | JStr s => Ok (JStr (hd [] (split_on 64%N s)))
  | _ => Raise AttributeError
  end.

Definition format_recipient (recipient_number : json) : result json :=
  if truthy recipient_number
  then
    found <-? py_in whatsapp_suffix recipient_number ;;
    if found then py_split_at_head recipient_number else Ok recipient_number
  else Ok recipient_number.

Fixpoint count_posts (t : list event) : nat :=
  match t with
  | [] => O
  | EvPost _ :: t' => S (count_posts t')
  | _ :: t' => count_posts t'
  end.

(** [requests.post(...)] inside its [try]: [true] when the request and
    [raise_for_status] go through, [false] on every exception. *)
Definition post (E : env) (payload : json) : M bool :=
  fun w =>
    (Ok (http_post E (count_posts (trace w)) payload),
     mkWorld (files w) (trace w ++ [EvPost payload])).

(** [send_whatsapp_message(recipient_number, message_content,
    message_type='text')]. *)
Definition send_whatsapp_message (E : env) (recipient_number : json)
    (message_content : str) : M bool :=
  if negb (configured (WASENDER_API_TOKEN E)) then ret false
  else
    formatted <- lift (format_recipient recipient_number) ;;
    post E (JDict [(lit "to", formatted); (lit "text", JStr message_content)]).

(** The payload of [send_whatsapp_message] for its four parameters (lines
    192-217): [None] where the source logs an error and returns [False]. *)
Definition build_payload (formatted message_content message_type media_url : json)
    : option (list (str * json)) :=
  let to := [(lit "to", formatted)] in
  let caption :=
    if truthy message_content then [(lit "text", message_content)] else [] in
  if py_eq_str message_type (lit "text")
  then Some (to ++ [(lit "text", message_content)])
  else if py_eq_str message_type (lit "image") && truthy media_url
  then Some (to ++ (lit "imageUrl", media_url) :: caption)
  else if py_eq_str message_type (lit "video") && truthy media_url
  then Some (to ++ (lit "videoUrl", media_url) :: caption)
  else if py_eq_str message_type (lit "audio") && truthy media_url
  then Some (to ++ [(lit "audioUrl", media_url)])
  else if py_eq_str message_type (lit "document") && truthy media_url
  then Some (to ++ (lit "documentUrl", media_url) :: caption)
  else None.

(** [send_whatsapp_message(recipient_number, message_content, message_type,
    media_url)] with every parameter (lines 175-235). *)
Definition send_whatsapp_message_full (E : env)
    (recipient_number message_content message_type media_url : json) : M bool :=
  if negb (configured (WASENDER_API_TOKEN E)) then ret false
  else
    formatted <- lift (format_recipient recipient_number) ;;
    match build_payload formatted message_content message_type media_url with
    | Some payload => post E (JDict payload)
    | None => ret false
    end.

(** ** The webhook handler *)

Record ack := mkAck {
  status : str;
  message : option str;
  http_code : Z
}.

(** [s.isalnum()]: not empty and every character alphanumeric. *)
Definition py_isalnum (E : env) (s : str) : bool :=
  match s with
  | [] => false
  | _ :: _ => forallb (isalnum E) s
  end.

Fixpoint sanitize_items (E : env) (items : list json) : result (list str) :=
  match items with
  | [] => Ok []
  | JStr c :: rest =>
      parts <-? sanitize_items E rest ;;
      Ok ((if py_isalnum E c then c else [underscore]) :: parts)
  | _ :: _ => Raise AttributeError
  end.

(** ["".join(c if c.isalnum() else '_' for c in sender_number)]. *)
Definition safe_sender_id (E : env) (sender_number : json) : result str :=
  items <-? py_iter sender_number ;;
  parts <-? sanitize_items E items ;;
  Ok (concat parts).

(** The condition of line 244. *)
Definition is_upsert (data : json) : result bool :=
  ev <-? py_get data (lit "event") JNull ;;
  if negb (py_eq_str ev (lit "messages.upsert")) then Ok false
  else
    d <-? py_get data (lit "data") JNull ;;
    if negb (truthy d) then Ok false
    else
      d' <-? py_getitem data (lit "data") ;;
      m <-? py_get d' (lit "messages") JNull ;;
      Ok (truthy m).

(** Lines 254-265: [(incoming_message_text, message_type == 'text')]. *)
Definition extract_text (message_info : json) : result (json * bool) :=
  msg <-? py_get message_info (lit "message") JNull ;;
  if truthy msg
  then
    msg_content_obj <-? py_getitem message_info (lit "message") ;;
    conv <-? py_in (lit "conversation") msg_content_obj ;;
    if conv
    then
      t <-? py_getitem msg_content_obj (lit "conversation") ;;
      Ok (t, true)
    else
      ext <-? py_in (lit "extendedTextMessage") msg_content_obj ;;
      if ext
      then
        e <-? py_getitem msg_content_obj (lit "extendedTextMessage") ;;
        has_text <-? py_in (lit "text") e ;;
        if has_text
        then
          e' <-? py_getitem msg_content_obj (lit "extendedTextMessage") ;;
          t <-? py_getitem e' (lit "text") ;;
          Ok (t, true)
        else Ok (JNull, false)
      else Ok (JNull, false)
  else Ok (JNull, false).

(** The name [i] of line 298.  No statement of [webhook] binds it (the loop
    header is [for chunk in message_chunks]), the module has no global of
    that name and it is no builtin: reading it raises [NameError]. *)
Definition read_i : result Z := Raise NameError.

(** [for chunk in message_chunks] (lines 291-300); [n] is
    [len(message_chunks)]. *)
Fixpoint send_chunks (E : env) (sender_number : json) (n : Z)
    (message_chunks : list str) : M unit :=
  match message_chunks with
  | [] => ret tt
  | chunk :: rest =>
      sent <- send_whatsapp_message E sender_number chunk ;;
      if negb sent then ret tt
      else
        i <- lift read_i ;;
        (if i <? n - 1 then emit (EvSleep (55 # 100) (15 # 10)) else ret tt) ;;;
        send_chunks E sender_number n rest
  end.

Definition turn (role : str) (part : json) : json :=
  JDict [(lit "role", JStr role); (lit "parts", JList [part])].

(** Lines 280-305. *)
Definition process_text (E : env) (sender_number : json)
    (safe_sender_id : str) (incoming_message_text : json) : M unit :=
  conversation_history <- load_conversation_history safe_sender_id ;;
  gemini_reply <- get_gemini_response E incoming_message_text
                    conversation_history ;;
  match gemini_reply with
  | [] => ret tt
  | _ :: _ =>
      let message_chunks := split_message_default gemini_reply in
      send_chunks E sender_number (len message_chunks) message_chunks ;;;
      save_conversation_history safe_sender_id
        (conversation_history
           ++ [turn (lit "user") incoming_message_text;
               turn (lit "model") (JStr gemini_reply)])
  end.

Definition ack_success : ack := mkAck (lit "success") None 200.
Definition ack_self_sent : ack :=
  mkAck (lit "success") (Some (lit "Self-sent message ignored")) 200.
Definition ack_system : ack :=
  mkAck (lit "success") (Some (lit "System message processed")) 200.
Definition ack_no_sender : ack :=
  mkAck (lit "error") (Some (lit "Incomplete sender data")) 400.
Definition ack_internal : ack :=
  mkAck (lit "error") (Some (lit "Internal server error")) 500.

(** The body of the [try] of [webhook] (lines 244-315). *)
Definition webhook_body (E : env) (data : json) : M ack :=
  upsert <- lift (is_upsert data) ;;
  if negb upsert then ret ack_success
  else
    message_info <- lift (d <-? py_getitem data (lit "data") ;;
                          py_getitem d (lit "messages")) ;;
    from_me <- lift (k <-? py_get message_info (lit "key") (JDict []) ;;
                     py_get k (lit "fromMe") JNull) ;;
    if truthy from_me then ret ack_self_sent
    else
      sender_number <- lift (k <-? py_get message_info (lit "key") (JDict []) ;;
                             py_get k (lit "remoteJid") JNull) ;;
      content <- lift (extract_text message_info) ;;
      stub <- lift (py_get message_info (lit "messageStubType") JNull) ;;
      if truthy stub then ret ack_system
      else if negb (truthy sender_number) then ret ack_no_sender
      else
        safe <- lift (safe_sender_id E sender_number) ;;
        (if snd content && truthy (fst content)
         then process_text E sender_number safe (fst content)
         else ret tt) ;;;
        ret ack_success.

Definition webhook (E : env) (data : json) : M ack :=
  try_except (webhook_body E data) (fun _ => ret ack_internal).

(** ** Concrete surroundings for worked examples *)

(** [str.isalnum] on the ASCII range. *)
Definition ascii_isalnum (c : char) : bool :=
  ((48 <=? c) && (c <=? 57) || (65 <=? c) && (c <=? 90)
   || (97 <=? c) && (c <=? 122))%N.

Definition text_response (s : str) : api_result :=
  ApiReturns (Some (mkResponse (Text s) None)).

(** The transport token is set, the generation credential is [key], the
    service answers [reply] to every call, and the transport accepts the
    POSTs that [accepts] selects. *)
Definition env_with (key : option str) (reply : str) (accepts : nat -> bool)
    : env :=
  mkEnv ascii_isalnum key (Some (lit "token"))
        (fun _ _ => text_response reply) (fun n _ => accepts n).

Definition empty_world : world := mkWorld (fun _ => Absent) [].

(** The inbound shape of the specification's example. *)
Definition upsert_event (remote_jid : str) (from_me : bool) (text : str)
    : json :=
  JDict [(lit "event", JStr (lit "messages.upsert"));
         (lit "data",
          JDict [(lit "messages",
                  JDict [(lit "key",
                          JDict [(lit "remoteJid", JStr remote_jid);
                                 (lit "fromMe", JBool from_me)]);
                         (lit "message",
                          JDict [(lit "conversation", JStr text)])])])].

(** The second inbound shape: the text of an extended (quoted) message. *)
Definition extended_event (remote_jid : str) (from_me : bool) (text : str)
    : json :=
  JDict [(lit "event", JStr (lit "messages.upsert"));
         (lit "data",
          JDict [(lit "messages",
                  JDict [(lit "key",
                          JDict [(lit "remoteJid", JStr remote_jid);
                                 (lit "fromMe", JBool from_me)]);
                         (lit "message",
                          JDict [(lit "extendedTextMessage",
                                  JDict [(lit "text", JStr text)])])])])].


(** An inbound message of a shape the handler does not read. *)
Definition image_event (remote_jid : str) : json :=
  JDict [(lit "event", JStr (lit "messages.upsert"));
         (lit "data",
          JDict [(lit "messages",
                  JDict [(lit "key",
                          JDict [(lit "remoteJid", JStr remote_jid);
                                 (lit "fromMe", JBool false)]);
                         (lit "message",
                          JDict [(lit "imageMessage", JDict [])])])])].

Definition hello_event : json :=
  upsert_event (lit "123@s.whatsapp.net") false (lit "Hello").

(** A store where [user_id] has one recorded exchange. *)
Definition recorded_exchange : list json :=
  [turn (lit "user") (JStr (lit "Hello"));
   turn (lit "model") (JStr (lit "Hi"))].

Definition world_with_history (user_id : str) : world :=
  mkWorld (fun p => if str_eqb p (file_path user_id)
                    then Holds (Document (JList recorded_exchange))
                    else Absent) [].

(** Replies of two and of three chunks under the default bounds. *)
Definition reply_two_chunks : str := lit "a
b
c
d".
Definition reply_three_chunks : str := lit "a
b
c
d
e
f
g".

Definition saves (t : list event) : list event :=
  filter (fun e => match e with EvSave _ _ => true | _ => false end) t.
Definition sleeps (t : list event) : list event :=
  filter (fun e => match e with EvSleep _ _ => true | _ => false end) t.
Definition posts (t : list event) : list event :=
  filter (fun e => match e with EvPost _ => true | _ => false end) t.

Definition text_payload (to text : str) : json :=
  JDict [(lit "to", JStr to); (lit "text", JStr text)].

(** ** Vocabulary of the statements *)

(** The lines of a chunk: its newline-separated segments. *)
Definition line_count (chunk : str) : Z := len (split_on nl chunk).

Definition no_space (s : str) : Prop := forallb (fun c => negb (is_space c)) s = true.

(** A word in the sense of [str.split()]: not empty, free of white space. *)
Definition is_word (w : str) : Prop := w <> [] /\ no_space w.

Definition no_nl (s : str) : Prop := ~ In nl s.

(** A record with a role field and a parts field. *)
Definition valid_turn (item : json) : Prop :=
  exists d, item = JDict d
            /\ (exists role, dict_get d (lit "role") = Some role)
            /\ (exists parts, dict_get d (lit "parts") = Some parts).

(** The words the chunker holds, in reading order. *)
Definition carried_words (st : chunker) : list str :=
  flat_map words (chunks st) ++ flat_map words (current_chunk st).

(** The lines the chunker holds, in reading order. *)
Definition lines_of (st : chunker) : list str :=
  flat_map (split_on nl) (chunks st) ++ current_chunk st.

(** The counter mirrors the open chunk, whose lines hold no line break. *)
Definition chunker_wf (st : chunker) : Prop :=
  current_line_count st = len (current_chunk st)
  /\ Forall no_nl (current_chunk st).

(** The chunker of the word loop is well formed and the line being packed
    is made of words. *)
Definition packer_wf (p : packer) : Prop :=
  chunker_wf (pk_chunker p) /\ Forall is_word (current_line p).

(** [st'] holds the lines of [st] and then some more. *)
Definition extends (st st' : chunker) : Prop :=
  exists more, lines_of st' = lines_of st ++ more.

(** No chunk, closed or open, exceeds [max_lines] lines. *)
Definition chunker_bounded (max_lines : Z) (st : chunker) : Prop :=
  len (current_chunk st) <= max_lines
  /\ Forall (fun c => line_count c <= max_lines) (chunks st).

(** A line within the width, or a single word that no width can hold. *)
Definition line_fits (max_chars_per_line : Z) (line : str) : Prop :=
  len line <= max_chars_per_line \/ is_word line.

(** The length the packer has counted covers the line it has packed, and
    that line is within the width unless it is a single word. *)
Definition packer_fits (max_chars_per_line : Z) (p : packer) : Prop :=
  len (join sp (current_line p)) <= current_length p
  /\ (current_length p <= max_chars_per_line
      \/ exists w, current_line p = [w]).

(** A paragraph that adds no line: longer than the width and wordless. *)
Definition blank_overflow (max_chars_per_line : Z) (paragraph : str) : Prop :=
  max_chars_per_line < len paragraph /\ words paragraph = [].

(** Neither the first nor the last character is white space. *)
Definition trimmed (s : str) : Prop :=
  (forall c rest, s = c :: rest -> is_space c = false)
  /\ (forall c front, s = front ++ [c] -> is_space c = false).



(** [data] is a [messages.upsert] event whose message record is the
    non-empty [message_info] and whose message key is [key] (empty when
    absent). *)
Definition upsert_of (data : json) (message_info key : list (str * json))
    : Prop :=
  exists top body,
    data = JDict top
    /\ dict_get top (lit "event") = Some (JStr (lit "messages.upsert"))
    /\ dict_get top (lit "data") = Some (JDict body)
    /\ dict_get body (lit "messages") = Some (JDict message_info)
    /\ message_info <> []
    /\ py_get (JDict message_info) (lit "key") (JDict []) = Ok (JDict key).

(** The field is absent or holds a falsy value. *)
Definition falsy_field (d : list (str * json)) (k : str) : Prop :=
  match dict_get d k with
  | Some v => truthy v = false
  | None => True
  end.

(** The message record carries no usable text: no message, a message of
    neither known shape, or an empty conversation text. *)
Definition no_text (message_info : list (str * json)) : Prop :=
  falsy_field message_info (lit "message")
  \/ exists m,
       dict_get message_info (lit "message") = Some (JDict m)
       /\ m <> []
       /\ dict_get m (lit "extendedTextMessage") = None
       /\ falsy_field m (lit "conversation").

(** * Properties *)

(** ** White space, words and joins *)

Lemma is_space_nl : is_space nl = true.
Proof. reflexivity. Qed.

Lemma is_space_sp : is_space sp = true.
Proof. reflexivity. Qed.

Lemma words_from_sep acc c s :
  is_space c = true ->
  words_from acc (c :: s) = words_from acc [] ++ words s.
Proof.
  intros Hc. simpl. rewrite Hc. now destruct acc.
Qed.

Lemma words_from_app_sep a : forall acc c b,
  is_space c = true ->
  words_from acc (a ++ c :: b) = words_from acc a ++ words b.
Proof.
  induction a as [|x a IH]; intros acc c b Hc.
  - apply words_from_sep, Hc.
  - cbn [app words_from]. destruct (is_space x).
    + destruct acc; cbn [app]; rewrite IH by exact Hc; reflexivity.
    + now apply IH.
Qed.

Lemma words_from_run w : forall acc s,
  no_space w -> words_from acc (w ++ s) = words_from (acc ++ w) s.
Proof.
  unfold no_space.
  induction w as [|x w IH]; intros acc s Hw.
  - now rewrite app_nil_r.
  - cbn in Hw. apply andb_true_iff in Hw as [Hx Hw].
    cbn [app words_from]. apply negb_true_iff in Hx. rewrite Hx.
    rewrite IH by exact Hw. now rewrite <- app_assoc.
Qed.

Lemma words_word w : is_word w -> words w = [w].
Proof.
  intros [Hne Hw]. unfold words.
  rewrite <- (app_nil_r w) at 1. rewrite words_from_run by exact Hw.
  cbn. now destruct w.
Qed.

Lemma no_space_snoc acc c :
  no_space acc -> is_space c = false -> no_space (acc ++ [c]).
Proof.
  unfold no_space. intros Ha Hc. rewrite forallb_app, Ha. cbn. now rewrite Hc.
Qed.

Lemma words_from_are_words s : forall acc,
  no_space acc -> Forall is_word (words_from acc s).
Proof.
  induction s as [|c s IH]; intros acc Hacc; cbn.
  - destruct acc; constructor; [split; [discriminate | exact Hacc] | constructor].
  - destruct (is_space c) eqn:Hc.
    + destruct acc.
      * now apply IH.
      * constructor; [split; [discriminate | exact Hacc] | now apply IH].
    + apply IH. now apply no_space_snoc.
Qed.

Lemma words_are_words s : Forall is_word (words s).
Proof. now apply words_from_are_words. Qed.

Lemma words_join_sp ws : Forall is_word ws -> words (join sp ws) = ws.
Proof.
  induction 1 as [|w ws Hw Hws IH]; [reflexivity|].
  destruct ws as [|w2 ws].
  - now apply words_word.
  - change (join sp (w :: w2 :: ws)) with (w ++ sp :: join sp (w2 :: ws)).
    unfold words at 1. rewrite words_from_app_sep by exact is_space_sp.
    fold (words w). rewrite words_word by exact Hw. now rewrite IH.
Qed.

Lemma words_join_nl ls : words (join nl ls) = flat_map words ls.
Proof.
  induction ls as [|l ls IH]; [reflexivity|].
  destruct ls as [|l2 ls].
  - cbn. now rewrite app_nil_r.
  - change (join nl (l :: l2 :: ls)) with (l ++ nl :: join nl (l2 :: ls)).
    unfold words at 1. rewrite words_from_app_sep by exact is_space_nl.
    rewrite IH. reflexivity.
Qed.

Lemma split_on_nonempty sep s : split_on sep s <> [].
Proof.
  destruct s as [|c s]; cbn; [discriminate|].
  destruct (N.eqb c sep); [discriminate|].
  destruct (split_on sep s); discriminate.
Qed.

Lemma words_split_nl t : forall acc,
  match split_on nl t with
  | p :: ps => words_from acc p ++ flat_map words ps
  | [] => []
  end = words_from acc t.
Proof.
  induction t as [|c t IH]; intros acc.
  - cbn. now rewrite app_nil_r.
  - cbn [split_on]. destruct (N.eqb c nl) eqn:Hc.
    + apply N.eqb_eq in Hc. subst c.
      rewrite words_from_sep by exact is_space_nl.
      f_equal. specialize (IH []).
      destruct (split_on nl t) as [|p ps] eqn:Hs; [|exact IH].
      now apply split_on_nonempty in Hs.
    + specialize (IH (acc ++ [c])) as IH1. specialize (IH []) as IH0.
      destruct (split_on nl t) as [|p ps] eqn:Hs.
      { now apply split_on_nonempty in Hs. }
      cbn [words_from]. destruct (is_space c).
      * destruct acc; cbn [app]; rewrite <- IH0; reflexivity.
      * exact IH1.
Qed.

Lemma flat_map_words_split_nl t : flat_map words (split_on nl t) = words t.
Proof.
  pose proof (words_split_nl t []) as H.
  destruct (split_on nl t); [|exact H].
  cbn. destruct t; cbn in H; [reflexivity|]. exact H.
Qed.

Lemma no_nl_app a b : no_nl a -> no_nl b -> no_nl (a ++ b).
Proof.
  unfold no_nl. intros Ha Hb Hin. apply in_app_or in Hin. tauto.
Qed.

Lemma no_space_no_nl w : no_space w -> no_nl w.
Proof.
  unfold no_space, no_nl. intros Hw Hin.
  rewrite forallb_forall in Hw. specialize (Hw nl Hin). discriminate.
Qed.

Lemma join_sp_no_nl ws : Forall is_word ws -> no_nl (join sp ws).
Proof.
  induction 1 as [|w ws [_ Hw] Hws IH]; [intros []|].
  destruct ws as [|w2 ws].
  - now apply no_space_no_nl.
  - change (join sp (w :: w2 :: ws)) with (w ++ sp :: join sp (w2 :: ws)).
    apply no_nl_app; [now apply no_space_no_nl|].
    intros [Heq | Hin]; [discriminate | now apply IH].
Qed.

Lemma split_on_no_sep s : no_nl s -> split_on nl s = [s].
Proof.
  unfold no_nl. induction s as [|c s IH]; intros Hs; [reflexivity|].
  cbn. destruct (N.eqb c nl) eqn:Hc.
  - apply N.eqb_eq in Hc. subst c. exfalso. apply Hs. now left.
  - rewrite IH; [reflexivity|]. intros Hin. apply Hs. now right.
Qed.

Lemma split_on_app_sep a b :
  no_nl a -> split_on nl (a ++ nl :: b) = a :: split_on nl b.
Proof.
  unfold no_nl. induction a as [|c a IH]; intros Ha; [reflexivity|].
  cbn. destruct (N.eqb c nl) eqn:Hc.
  - apply N.eqb_eq in Hc. subst c. exfalso. apply Ha. now left.
  - rewrite IH; [reflexivity|]. intros Hin. apply Ha. now right.
Qed.

Lemma split_on_pieces t : Forall no_nl (split_on nl t).
Proof.
  induction t as [|c t IH]; cbn.
  - constructor; [intros []|constructor].
  - destruct (N.eqb c nl) eqn:Hc.
    + constructor; [intros []|exact IH].
    + destruct (split_on nl t) as [|p ps] eqn:Hs.
      { now apply split_on_nonempty in Hs. }
      inversion IH as [|? ? Hp Hps]; subst. constructor; [|exact Hps].
      intros [Heq | Hin]; [|now apply Hp].
      subst c. now rewrite N.eqb_refl in Hc.
Qed.

(** Splitting a joined list of lines gives the lines back. *)
Lemma split_join_nl ls :
  ls <> [] -> Forall no_nl ls -> split_on nl (join nl ls) = ls.
Proof.
  intros Hne Hls. induction Hls as [|l ls Hl Hls IH]; [now destruct Hne|].
  destruct ls as [|l2 ls].
  - now apply split_on_no_sep.
  - change (join nl (l :: l2 :: ls)) with (l ++ nl :: join nl (l2 :: ls)).
    rewrite split_on_app_sep by exact Hl. f_equal. now apply IH.
Qed.

(** ** The chunker *)

Lemma len_snoc {A} (l : list A) x : len (l ++ [x]) = len l + 1.
Proof. unfold len. rewrite length_app. cbn. lia. Qed.

Lemma len_nonneg {A} (l : list A) : 0 <= len l.
Proof. unfold len. lia. Qed.

Lemma len_pos_nonempty {A} (l : list A) : 1 <= len l -> l <> [].
Proof. destruct l; [cbn; lia | discriminate]. Qed.

Lemma add_line_words ml st line :
  carried_words (add_line ml st line) = carried_words st ++ words line.
Proof.
  unfold add_line, carried_words.
  destruct (ml <=? current_line_count st); cbn [chunks current_chunk].
  - rewrite !flat_map_app. cbn. rewrite words_join_nl, !app_nil_r.
    reflexivity.
  - rewrite flat_map_app. cbn. now rewrite app_nil_r, app_assoc.
Qed.

Lemma add_line_wf ml st line :
  chunker_wf st -> no_nl line -> chunker_wf (add_line ml st line).
Proof.
  intros [Hc Hl] Hline. unfold add_line, chunker_wf.
  destruct (ml <=? current_line_count st); cbn [current_chunk current_line_count].
  - split; [reflexivity | now repeat constructor].
  - split; [rewrite len_snoc; lia|].
    apply Forall_app. split; [exact Hl | now repeat constructor].
Qed.

Lemma add_line_bounded ml st line :
  1 <= ml -> chunker_wf st -> chunker_bounded ml st ->
  chunker_bounded ml (add_line ml st line).
Proof.
  intros Hml [Hc Hl] [Hb Hchunks]. unfold add_line, chunker_bounded.
  destruct (ml <=? current_line_count st) eqn:Hfull;
    cbn [chunks current_chunk current_line_count].
  - apply Z.leb_le in Hfull. split; [cbn; lia|].
    apply Forall_app. split; [exact Hchunks|]. repeat constructor.
    unfold line_count. rewrite split_join_nl; [exact Hb | | exact Hl].
    apply len_pos_nonempty. lia.
  - apply Z.leb_gt in Hfull. split; [rewrite len_snoc; lia | exact Hchunks].
Qed.

Lemma add_line_lines ml st line :
  chunker_wf st -> exists pad,
    lines_of (add_line ml st line) = lines_of st ++ pad ++ [line]
    /\ (current_chunk st <> [] -> pad = []).
Proof.
  intros [Hc Hl]. unfold add_line, lines_of.
  destruct (ml <=? current_line_count st); cbn [chunks current_chunk].
  - destruct (current_chunk st) as [|l ls] eqn:Hcc.
    + exists [[]]. split; [|congruence].
      rewrite flat_map_app. cbn. now rewrite !app_nil_r, <- app_assoc.
    + exists []. split; [|reflexivity].
      rewrite flat_map_app. cbn [flat_map].
      rewrite split_join_nl by (discriminate || exact Hl).
      now rewrite app_nil_r, <- app_assoc.
  - exists []. split; [|reflexivity]. now rewrite app_assoc.
Qed.

(** ** The word loop *)

Lemma extends_refl st : extends st st.
Proof. exists []. now rewrite app_nil_r. Qed.

Lemma extends_trans a b c : extends a b -> extends b c -> extends a c.
Proof.
  intros [m1 H1] [m2 H2]. exists (m1 ++ m2). now rewrite H2, H1, app_assoc.
Qed.

Lemma add_line_extends ml st line :
  chunker_wf st -> extends st (add_line ml st line).
Proof.
  intros Hwf. destruct (add_line_lines ml st line Hwf) as [pad [H _]].
  now exists (pad ++ [line]).
Qed.

Section WordLoop.
Variables max_lines max_chars_per_line : Z.

Let step := pack_word max_lines max_chars_per_line.

Lemma pack_word_wf p w : packer_wf p -> is_word w -> packer_wf (step p w).
Proof.
  intros [Hst Hline] Hw. unfold step, pack_word.
  destruct (_ <=? _); split; cbn [pk_chunker current_line].
  - exact Hst.
  - apply Forall_app. split; [exact Hline|].
    constructor; [exact Hw | constructor].
  - apply add_line_wf; [exact Hst | now apply join_sp_no_nl].
  - constructor; [exact Hw | constructor].
Qed.

Lemma pack_word_bounded p w :
  1 <= max_lines -> packer_wf p ->
  chunker_bounded max_lines (pk_chunker p) ->
  chunker_bounded max_lines (pk_chunker (step p w)).
Proof.
  intros Hml [Hst _] Hb. unfold step, pack_word.
  destruct (_ <=? _); cbn [pk_chunker]; [exact Hb|].
  now apply add_line_bounded.
Qed.

Lemma pack_word_words p w :
  packer_wf p ->
  carried_words (pk_chunker (step p w)) ++ current_line (step p w)
  = carried_words (pk_chunker p) ++ current_line p ++ [w].
Proof.
  intros [_ Hline]. unfold step, pack_word.
  destruct (_ <=? _); cbn [pk_chunker current_line]; [reflexivity|].
  rewrite add_line_words, words_join_sp by exact Hline.
  now rewrite <- app_assoc.
Qed.

Lemma pack_word_extends p w :
  packer_wf p -> extends (pk_chunker p) (pk_chunker (step p w)).
Proof.
  intros [Hst _]. unfold step, pack_word.
  destruct (_ <=? _); cbn [pk_chunker]; [apply extends_refl|].
  now apply add_line_extends.
Qed.

Lemma pack_words_wf ws : forall p,
  packer_wf p -> Forall is_word ws -> packer_wf (fold_left step ws p).
Proof.
  induction ws as [|w ws IH]; intros p Hp Hws; [exact Hp|].
  inversion Hws; subst. cbn. apply IH; [now apply pack_word_wf | assumption].
Qed.

Lemma pack_words_bounded ws : forall p,
  1 <= max_lines -> packer_wf p -> Forall is_word ws ->
  chunker_bounded max_lines (pk_chunker p) ->
  chunker_bounded max_lines (pk_chunker (fold_left step ws p)).
Proof.
  induction ws as [|w ws IH]; intros p Hml Hp Hws Hb; [exact Hb|].
  inversion Hws; subst. cbn. apply IH; try assumption.
  - now apply pack_word_wf.
  - now apply pack_word_bounded.
Qed.

Lemma pack_words_words ws : forall p,
  packer_wf p -> Forall is_word ws ->
  carried_words (pk_chunker (fold_left step ws p))
    ++ current_line (fold_left step ws p)
  = carried_words (pk_chunker p) ++ current_line p ++ ws.
Proof.
  induction ws as [|w ws IH]; intros p Hp Hws.
  - cbn. now rewrite app_nil_r.
  - inversion Hws; subst. cbn [fold_left].
    rewrite IH by (try apply pack_word_wf; assumption).
    rewrite app_assoc, pack_word_words by exact Hp.
    now rewrite <- !app_assoc.
Qed.

Lemma pack_words_extends ws : forall p,
  packer_wf p -> Forall is_word ws ->
  extends (pk_chunker p) (pk_chunker (fold_left step ws p)).
Proof.
  induction ws as [|w ws IH]; intros p Hp Hws; [apply extends_refl|].
  inversion Hws; subst. cbn [fold_left].
  eapply extends_trans; [now apply pack_word_extends|].
  apply IH; [now apply pack_word_wf | assumption].
Qed.

(** ** One paragraph *)

Let para := split_paragraph max_lines max_chars_per_line.

Lemma split_paragraph_wf st p :
  chunker_wf st -> no_nl p -> chunker_wf (para st p).
Proof.
  intros Hst Hp. unfold para, split_paragraph.
  destruct (_ <? _); [|now apply add_line_wf].
  pose proof (pack_words_wf (words p) (mkPacker st [] 0)) as Hwf.
  destruct Hwf as [Hwf Hl]; [now split | apply words_are_words|].
  fold step. destruct (current_line _) eqn:Hcur; [exact Hwf|].
  apply add_line_wf; [exact Hwf | now apply join_sp_no_nl].
Qed.

Lemma split_paragraph_bounded st p :
  1 <= max_lines -> chunker_wf st -> chunker_bounded max_lines st ->
  chunker_bounded max_lines (para st p).
Proof.
  intros Hml Hst Hb. unfold para, split_paragraph.
  destruct (_ <? _); [|now apply add_line_bounded].
  assert (Hp0 : packer_wf (mkPacker st [] 0)) by now split.
  pose proof (pack_words_wf _ _ Hp0 (words_are_words p)) as [Hwf _].
  pose proof (pack_words_bounded _ _ Hml Hp0 (words_are_words p) Hb) as Hb'.
  fold step. destruct (current_line _); [exact Hb'|].
  now apply add_line_bounded.
Qed.

Lemma split_paragraph_words st p :
  chunker_wf st -> carried_words (para st p) = carried_words st ++ words p.
Proof.
  intros Hst. unfold para, split_paragraph.
  destruct (_ <? _); [|apply add_line_words].
  assert (Hp0 : packer_wf (mkPacker st [] 0)) by now split.
  pose proof (pack_words_wf _ _ Hp0 (words_are_words p)) as [_ Hl].
  pose proof (pack_words_words _ _ Hp0 (words_are_words p)) as Hw.
  cbn [pk_chunker current_line app] in Hw. fold step.
  fold step in Hw, Hl.
  destruct (current_line (fold_left step (words p) (mkPacker st [] 0)))
    as [|w ws] eqn:Hcur.
  - now rewrite app_nil_r in Hw.
  - rewrite add_line_words, words_join_sp by exact Hl. exact Hw.
Qed.

Lemma split_paragraph_extends st p :
  chunker_wf st -> extends st (para st p).
Proof.
  intros Hst. unfold para, split_paragraph.
  destruct (_ <? _); [|now apply add_line_extends].
  assert (Hp0 : packer_wf (mkPacker st [] 0)) by now split.
  pose proof (pack_words_wf _ _ Hp0 (words_are_words p)) as [Hwf _].
  pose proof (pack_words_extends _ _ Hp0 (words_are_words p)) as He.
  fold step. fold step in He, Hwf. destruct (current_line _); [exact He|].
  eapply extends_trans; [exact He | now apply add_line_extends].
Qed.

(** ** All paragraphs *)

Lemma split_paragraphs_wf ps : forall st,
  chunker_wf st -> Forall no_nl ps -> chunker_wf (fold_left para ps st).
Proof.
  induction ps as [|p ps IH]; intros st Hst Hps; [exact Hst|].
  inversion Hps; subst. cbn. apply IH; [now apply split_paragraph_wf | assumption].
Qed.

Lemma split_paragraphs_bounded ps : forall st,
  1 <= max_lines -> chunker_wf st -> Forall no_nl ps ->
  chunker_bounded max_lines st ->
  chunker_bounded max_lines (fold_left para ps st).
Proof.
  induction ps as [|p ps IH]; intros st Hml Hst Hps Hb; [exact Hb|].
  inversion Hps; subst. cbn. apply IH; try assumption.
  - now apply split_paragraph_wf.
  - now apply split_paragraph_bounded.
Qed.

Lemma split_paragraphs_words ps : forall st,
  chunker_wf st -> Forall no_nl ps ->
  carried_words (fold_left para ps st)
  = carried_words st ++ flat_map words ps.
Proof.
  induction ps as [|p ps IH]; intros st Hst Hps.
  - cbn. now rewrite app_nil_r.
  - inversion Hps; subst. cbn [fold_left flat_map].
    rewrite IH by (try apply split_paragraph_wf; assumption).
    rewrite split_paragraph_words by exact Hst. now rewrite app_assoc.
Qed.

Lemma split_paragraphs_extends ps : forall st,
  chunker_wf st -> Forall no_nl ps -> extends st (fold_left para ps st).
Proof.
  induction ps as [|p ps IH]; intros st Hst Hps; [apply extends_refl|].
  inversion Hps; subst. cbn [fold_left].
  eapply extends_trans; [now apply split_paragraph_extends|].
  apply IH; [now apply split_paragraph_wf | assumption].
Qed.

End WordLoop.

Lemma initial_chunker_wf : chunker_wf (mkChunker [] [] 0).
Proof. split; [reflexivity | constructor]. Qed.

(** The chunks returned are the closed chunks and the open one. *)
Lemma split_message_lines text ml mc :
  flat_map (split_on nl) (split_message text ml mc)
  = lines_of (fold_left (split_paragraph ml mc) (split_on nl text)
                        (mkChunker [] [] 0)).
Proof.
  unfold split_message.
  pose proof (split_paragraphs_wf ml mc _ _ initial_chunker_wf
                (split_on_pieces text)) as [_ Hl].
  set (st := fold_left _ _ _) in *. unfold lines_of.
  destruct (current_chunk st) as [|l ls] eqn:Hcc.
  - now rewrite app_nil_r.
  - rewrite flat_map_app. cbn [flat_map].
    rewrite split_join_nl by (discriminate || exact Hl).
    now rewrite app_nil_r.
Qed.

(** ** The segmenter *)

(** C6.  For [max_lines >= 1] and [max_chars_per_line >= 1], every chunk
    that [split_message] returns has at most [max_lines] lines, a line
    being a newline-separated segment of the chunk.  A word longer than
    [max_chars_per_line] makes a line long, never a chunk tall, so the
    bound holds with no chunk excepted. *)
Theorem split_message_line_bound (text : str) (max_lines max_chars_per_line : Z) :
  1 <= max_lines -> 1 <= max_chars_per_line ->
  Forall (fun chunk => line_count chunk <= max_lines)
         (split_message text max_lines max_chars_per_line).
Proof.
  intros Hml _. unfold split_message.
  assert (Hb0 : chunker_bounded max_lines (mkChunker [] [] 0)).
  { split; [cbn; lia | constructor]. }
  pose proof (split_paragraphs_wf max_lines max_chars_per_line _ _
                initial_chunker_wf (split_on_pieces text)) as [_ Hl].
  pose proof (split_paragraphs_bounded max_lines max_chars_per_line _ _ Hml
                initial_chunker_wf (split_on_pieces text) Hb0) as [Hb Hchunks].
  set (st := fold_left _ _ _) in *.
  destruct (current_chunk st) as [|l ls] eqn:Hcc; [exact Hchunks|].
  apply Forall_app. split; [exact Hchunks|]. repeat constructor.
  unfold line_count. rewrite split_join_nl by (discriminate || exact Hl).
  exact Hb.
Qed.

Lemma split_message_line_bound_witness :
  Forall (fun chunk => line_count chunk <= 2)
         (split_message (lit "aaaa bbb cc dddd e ff") 2 5).
Proof.
  apply (split_message_line_bound (lit "aaaa bbb cc dddd e ff") 2 5); lia.
Defined.

(** C7.  The words of the chunks of [split_message], read chunk after chunk
    or from the chunks rejoined on line breaks, are the words of the input
    in the same order: none lost, reordered or cut. *)
Theorem split_message_preserves_words (text : str) (max_lines max_chars_per_line : Z) :
  flat_map words (split_message text max_lines max_chars_per_line) = words text
  /\ words (join nl (split_message text max_lines max_chars_per_line))
     = words text.
Proof.
  assert (H : flat_map words (split_message text max_lines max_chars_per_line)
              = words text).
  { unfold split_message.
    pose proof (split_paragraphs_words max_lines max_chars_per_line _ _
                  initial_chunker_wf (split_on_pieces text)) as Hw.
    rewrite flat_map_words_split_nl in Hw. cbn [app] in Hw.
    unfold carried_words at 2 in Hw. cbn in Hw. rewrite <- Hw.
    set (st := fold_left _ _ _). unfold carried_words.
    destruct (current_chunk st) as [|l ls]; [now rewrite app_nil_r|].
    rewrite flat_map_app. cbn [flat_map].
    now rewrite words_join_nl, app_nil_r. }
  split; [exact H | now rewrite words_join_nl].
Qed.

Lemma add_line_current_nonempty ml st line :
  current_chunk (add_line ml st line) <> [].
Proof.
  unfold add_line. destruct (_ <=? _); cbn [current_chunk];
    now destruct (current_chunk st).
Qed.

Lemma is_word_len w : is_word w -> 1 <= len w.
Proof. intros [Hne _]. destruct w; [congruence | cbn; lia]. Qed.

(** On the empty line of a fresh paragraph, a word that does not fit closes
    that empty line. *)
Lemma pack_word_on_empty_line ml mc st w :
  mc < len w + 1 ->
  pack_word ml mc (mkPacker st [] 0) w
  = mkPacker (add_line ml st []) [w] (len w).
Proof.
  intros Hw. unfold pack_word. cbn [current_length current_line pk_chunker].
  replace (0 + len w + 1 <=? mc) with false; [reflexivity|].
  symmetry. apply Z.leb_gt. lia.
Qed.

(** Once a word has been read the line being packed is never empty again:
    the packer is on an empty line at the first word of a paragraph only. *)
Lemma pack_word_line_nonempty ml mc p w : current_line (pack_word ml mc p w) <> [].
Proof.
  unfold pack_word. destruct (_ <=? _); cbn [current_line];
    [now destruct (current_line p) | discriminate].
Qed.

(** A word that fills its line alone is closed by the next word. *)
Lemma pack_word_after_long_word ml mc st w w2 :
  mc < len w + 1 -> is_word w2 ->
  pack_word ml mc (mkPacker st [w] (len w)) w2
  = mkPacker (add_line ml st w) [w2] (len w2).
Proof.
  intros Hw Hw2. unfold pack_word.
  cbn [current_length current_line pk_chunker join].
  replace (len w + len w2 + 1 <=? mc) with false; [reflexivity|].
  symmetry. apply Z.leb_gt. pose proof (is_word_len w2 Hw2). lia.
Qed.

(** The rest of a paragraph only adds lines. *)
Lemma finish_paragraph_extends ml mc ws p :
  packer_wf p -> Forall is_word ws ->
  extends (pk_chunker p)
    (let q := fold_left (pack_word ml mc) ws p in
     match current_line q with
     | [] => pk_chunker q
     | _ :: _ => add_line ml (pk_chunker q) (join sp (current_line q))
     end).
Proof.
  intros Hp Hws.
  pose proof (pack_words_wf ml mc ws p Hp Hws) as [Hwf _].
  pose proof (pack_words_extends ml mc ws p Hp Hws) as He.
  cbv zeta. destruct (current_line _); [exact He|].
  eapply extends_trans; [exact He | now apply add_line_extends].
Qed.

Lemma split_paragraph_long_first_word ml mc st paragraph w ws :
  chunker_wf st -> mc < len paragraph -> words paragraph = w :: ws ->
  mc < len w + 1 ->
  exists pad more,
    lines_of (split_paragraph ml mc st paragraph)
    = lines_of st ++ pad ++ [] :: w :: more.
Proof.
  intros Hst Hlong Hwords Hw.
  pose proof (words_are_words paragraph) as Hall. rewrite Hwords in Hall.
  inversion Hall as [|? ? Hww Hws]; subst.
  unfold split_paragraph.
  replace (mc <? len paragraph) with true by (symmetry; now apply Z.ltb_lt).
  rewrite Hwords. cbn [fold_left].
  rewrite pack_word_on_empty_line by exact Hw.
  destruct (add_line_lines ml st [] Hst) as [pad [Hpad _]].
  set (st1 := add_line ml st []) in *.
  assert (Hst1 : chunker_wf st1)
    by (apply add_line_wf; [exact Hst | intros []]).
  destruct (add_line_lines ml st1 w Hst1) as [pad1 [Hl1 Hpad1]].
  rewrite (Hpad1 (add_line_current_nonempty ml st [])) in Hl1.
  cbn [app] in Hl1.
  assert (Hst2 : chunker_wf (add_line ml st1 w))
    by (apply add_line_wf; [exact Hst1 | now apply no_space_no_nl, Hww]).
  exists pad. destruct ws as [|w2 ws].
  - exists []. cbn [fold_left current_line pk_chunker join].
    rewrite Hl1, Hpad. now rewrite <- !app_assoc.
  - inversion Hws as [|? ? Hw2 Hws']; subst. cbn [fold_left].
    rewrite pack_word_after_long_word by assumption.
    destruct (finish_paragraph_extends ml mc ws
                (mkPacker (add_line ml st1 w) [w2] (len w2))) as [more Hmore].
    { split; [exact Hst2 | constructor; [exact Hw2 | constructor]]. }
    { exact Hws'. }
    cbv zeta in Hmore. cbn [pk_chunker] in Hmore.
    exists more. rewrite Hmore, Hl1, Hpad. now rewrite <- !app_assoc.
Qed.

(** C10.  In a paragraph longer than [max_chars_per_line], when the packer
    is on its empty line and the next word [w] has
    [len w + 1 > max_chars_per_line], that empty line is closed and emitted
    as the empty string; the lines of the chunks returned therefore hold an
    empty line right before the line of [w]. *)
Theorem split_message_spurious_empty_line
    (text : str) (max_lines max_chars_per_line : Z)
    (before after : list str) (paragraph w : str) (ws : list str) :
  split_on nl text = before ++ paragraph :: after ->
  max_chars_per_line < len paragraph ->
  words paragraph = w :: ws ->
  max_chars_per_line < len w + 1 ->
  (forall st,
     pack_word max_lines max_chars_per_line (mkPacker st [] 0) w
     = mkPacker (add_line max_lines st (join sp [])) [w] (len w))
  /\ exists lines_before lines_after,
       flat_map (split_on nl) (split_message text max_lines max_chars_per_line)
       = lines_before ++ [] :: w :: lines_after.
Proof.
  intros Hsplit Hlong Hwords Hw. split.
  { intros st. now apply pack_word_on_empty_line. }
  rewrite split_message_lines, Hsplit, fold_left_app. cbn [fold_left].
  pose proof (split_on_pieces text) as Hpieces. rewrite Hsplit in Hpieces.
  apply Forall_app in Hpieces as [Hbefore Hrest].
  inversion Hrest as [|? ? Hpara Hafter]; subst.
  pose proof (split_paragraphs_wf max_lines max_chars_per_line _ _
                initial_chunker_wf Hbefore) as Hst.
  set (st := fold_left _ before _) in *.
  destruct (split_paragraph_long_first_word max_lines max_chars_per_line
              st paragraph w ws Hst Hlong Hwords Hw) as [pad [more Hlines]].
  destruct (split_paragraphs_extends max_lines max_chars_per_line after
              (split_paragraph max_lines max_chars_per_line st paragraph))
    as [more2 Hmore2].
  { now apply split_paragraph_wf. }
  { exact Hafter. }
  exists (lines_of st ++ pad), (more ++ more2).
  rewrite Hmore2, Hlines. now rewrite <- !app_assoc.
Qed.

Lemma split_message_spurious_empty_line_witness :
  exists lines_before lines_after,
    flat_map (split_on nl) (split_message (lit "ok
aaaaa b") 3 5)
    = lines_before ++ [] :: lit "aaaaa" :: lines_after.
Proof.
  apply (split_message_spurious_empty_line (lit "ok
aaaaa b") 3 5 [lit "ok"] [] (lit "aaaaa b") (lit "aaaaa") [lit "b"]).
  - reflexivity.
  - vm_compute. reflexivity.
  - reflexivity.
  - vm_compute. reflexivity.
Defined.

(** ** Identity derivation *)

Lemma sanitize_chars E s :
  sanitize_items E (map (fun c => JStr [c]) s)
  = Ok (map (fun c => [if isalnum E c then c else underscore]) s).
Proof.
  induction s as [|c s IH]; [reflexivity|].
  cbn [map sanitize_items]. rewrite IH. cbn [rbind py_isalnum forallb].
  rewrite andb_true_r. now destruct (isalnum E c).
Qed.

Lemma concat_singletons {A} (l : list A) : concat (map (fun x => [x]) l) = l.
Proof. induction l as [|x l IH]; [reflexivity|]. cbn. now rewrite IH. Qed.

(** C5.  The storage key of a sender address is the address with every
    character that is not alphanumeric replaced by ['_'] and the others
    kept; so every character of the key is alphanumeric or ['_'], and equal
    addresses have equal keys. *)
Theorem safe_sender_id_charwise (E : env) (sender_number : str) :
  safe_sender_id E (JStr sender_number)
  = Ok (map (fun c => if isalnum E c then c else underscore) sender_number)
  /\ Forall (fun c => isalnum E c = true \/ c = underscore)
            (map (fun c => if isalnum E c then c else underscore)
                 sender_number)
  /\ forall other : str,
       other = sender_number ->
       safe_sender_id E (JStr other) = safe_sender_id E (JStr sender_number).
Proof.
  split; [|split].
  - unfold safe_sender_id. cbn [py_iter rbind]. rewrite sanitize_chars.
    cbn [rbind]. f_equal.
    rewrite <- (concat_singletons
                  (map (fun c => if isalnum E c then c else underscore)
                       sender_number)).
    now rewrite map_map.
  - apply Forall_forall. intros c Hin. apply in_map_iff in Hin as [x [Hx _]].
    destruct (isalnum E x) eqn:Hal; subst c; [left; exact Hal | now right].
  - now intros other ->.
Qed.

Lemma safe_sender_id_charwise_witness :
  safe_sender_id (env_with None [] (fun _ => true))
                 (JStr (lit "123@s.whatsapp.net"))
  = Ok (lit "123_s_whatsapp_net")
  /\ safe_sender_id (env_with None [] (fun _ => true))
                    (JStr (lit "123@s.whatsapp.net"))
     = safe_sender_id (env_with None [] (fun _ => true))
                      (JStr (lit "123@s.whatsapp.net")).
Proof.
  destruct (safe_sender_id_charwise (env_with None [] (fun _ => true))
              (lit "123@s.whatsapp.net")) as [Hkey [_ Hdet]].
  split; [rewrite Hkey; reflexivity | exact (Hdet _ eq_refl)].
Defined.

(** ** The history store *)

Lemma has_key_spec d k : has_key d k = true <-> exists v, dict_get d k = Some v.
Proof.
  unfold has_key. destruct (dict_get d k) as [v|].
  - split; [now exists v | reflexivity].
  - split; [discriminate | now intros [v Hv]].
Qed.

Lemma is_turn_spec item : is_turn item = true <-> valid_turn item.
Proof.
  unfold valid_turn. split.
  - destruct item; try discriminate. cbn. intros H.
    apply andb_true_iff in H as [Hr Hp].
    exists d. now rewrite <- !has_key_spec.
  - intros [d [-> [Hr Hp]]]. cbn. apply andb_true_iff.
    now rewrite !has_key_spec.
Qed.

Lemma forallb_is_turn l : forallb is_turn l = true <-> Forall valid_turn l.
Proof.
  rewrite forallb_forall, Forall_forall.
  split; intros H x Hx; apply is_turn_spec, H, Hx.
Qed.

(** C8.  [load_conversation_history] never raises and only reads: it
    returns the stored sequence when the file holds a list whose every
    element is a record with a role and a parts field, and the empty
    sequence in every other case (no file, a file that cannot be read or
    decoded, a document that is no list, an element that is no such
    record). *)
Theorem load_conversation_history_spec (user_id : str) (w : world) :
  exists history,
    load_conversation_history user_id w
    = (Ok history,
       mkWorld (files w) (trace w ++ [EvLoad (file_path user_id)]))
    /\ (forall l,
          files w (file_path user_id) = Holds (Document (JList l)) ->
          Forall valid_turn l -> history = l)
    /\ ((~ exists l,
           files w (file_path user_id) = Holds (Document (JList l))
           /\ Forall valid_turn l) ->
        history = []).
Proof.
  unfold load_conversation_history, bind, emit, try_except, open_json_load.
  cbn [files trace].
  assert (Hempty : forall stored : entry,
            (forall l, stored <> Holds (Document (JList l))) ->
            (forall l : list json,
               stored = Holds (Document (JList l)) ->
               Forall valid_turn l -> @nil json = l)
            /\ ((~ exists l, stored = Holds (Document (JList l))
                             /\ Forall valid_turn l) -> @nil json = [])).
  { intros stored Hno. split; [|reflexivity].
    intros l Hl. now destruct (Hno l). }
  destruct (files w (file_path user_id)) as [| |[|j]] eqn:Hf.
  - exists []. split; [reflexivity | now apply Hempty].
  - exists []. split; [reflexivity | now apply Hempty].
  - exists []. split; [reflexivity | now apply Hempty].
  - destruct j as [| | | | |l|];
      try (exists []; split; [reflexivity | now apply Hempty]).
    destruct (forallb is_turn l) eqn:Hall.
    + exists l. split; [reflexivity|]. split.
      * intros l' Hl' _. now injection Hl' as <-.
      * intros Hno. exfalso. apply Hno. exists l. split; [reflexivity|].
        now apply forallb_is_turn.
    + exists []. split; [reflexivity|]. split; [|reflexivity].
      intros l' Hl' Hvalid. injection Hl' as <-.
      apply forallb_is_turn in Hvalid. congruence.
Qed.

Lemma load_conversation_history_spec_witness :
  exists history,
    load_conversation_history (lit "123_s_whatsapp_net")
      (world_with_history (lit "123_s_whatsapp_net"))
    = (Ok history,
       mkWorld (files (world_with_history (lit "123_s_whatsapp_net")))
               [EvLoad (file_path (lit "123_s_whatsapp_net"))])
    /\ history = recorded_exchange.
Proof.
  destruct (load_conversation_history_spec (lit "123_s_whatsapp_net")
              (world_with_history (lit "123_s_whatsapp_net")))
    as [history [Hrun [Hvalid _]]].
  exists history. split; [exact Hrun|].
  apply Hvalid; [reflexivity|].
  repeat constructor; eexists; (split; [reflexivity|]);
    split; eexists; reflexivity.
Defined.

(** ** The handler *)

Lemma dict_get_nonempty d k v : dict_get d k = Some v -> truthy (JDict d) = true.
Proof. now destruct d. Qed.

Lemma py_get_found d k v default :
  dict_get d k = Some v -> py_get (JDict d) k default = Ok v.
Proof. intros H. cbn. now rewrite H. Qed.

Lemma py_getitem_found d k v :
  dict_get d k = Some v -> py_getitem (JDict d) k = Ok v.
Proof. intros H. cbn. now rewrite H. Qed.

(** C9.  An inbound [messages.upsert] event whose message key has a true
    [fromMe] is acknowledged as ignored and leaves the world as it was: no
    call to the service or the transport, no read or write of a history. *)
Theorem webhook_ignores_self_sent (E : env) (w : world) (data : json)
    (top body message_info key : list (str * json)) (from_me : json) :
  data = JDict top ->
  dict_get top (lit "event") = Some (JStr (lit "messages.upsert")) ->
  dict_get top (lit "data") = Some (JDict body) ->
  dict_get body (lit "messages") = Some (JDict message_info) ->
  dict_get message_info (lit "key") = Some (JDict key) ->
  dict_get key (lit "fromMe") = Some from_me ->
  truthy from_me = true ->
  webhook E data w = (Ok ack_self_sent, w).
Proof.
  intros -> Hev Hdata Hmsg Hkey Hfrom Htrue.
  unfold webhook, try_except, webhook_body, bind, lift, is_upsert.
  rewrite (py_get_found _ _ _ _ Hev), (py_get_found _ _ _ _ Hdata),
    (py_getitem_found _ _ _ Hdata).
  cbn [rbind]. replace (py_eq_str (JStr (lit "messages.upsert"))
                          (lit "messages.upsert")) with true by reflexivity.
  cbn [negb]. rewrite (dict_get_nonempty _ _ _ Hmsg). cbn [negb rbind].
  rewrite (py_get_found _ _ _ _ Hmsg), (py_getitem_found _ _ _ Hmsg).
  cbn [rbind]. rewrite (dict_get_nonempty _ _ _ Hkey). cbn [negb].
  rewrite (py_get_found _ _ _ _ Hkey). cbn [rbind].
  rewrite (py_get_found _ _ _ _ Hfrom), Htrue. reflexivity.
Qed.

Lemma webhook_ignores_self_sent_witness :
  webhook (env_with (Some (lit "k")) (lit "Hi") (fun _ => true))
          (upsert_event (lit "123@s.whatsapp.net") true (lit "Hello"))
          (world_with_history (lit "123_s_whatsapp_net"))
  = (Ok ack_self_sent, world_with_history (lit "123_s_whatsapp_net")).
Proof.
  eapply webhook_ignores_self_sent; reflexivity.
Defined.

(** Without a credential the generator answers with its fixed apology and
    calls nothing. *)
Lemma get_gemini_response_no_key E message_text history w :
  configured (GEMINI_API_KEY E) = false ->
  get_gemini_response E message_text history w = (Ok apology_no_key, w).
Proof.
  intros Hkey. unfold get_gemini_response. now rewrite Hkey.
Qed.

(** The loop body after a delivery that went through: the read of [i]
    raises before any pause and before the next chunk. *)
Lemma send_chunks_raises_after_delivery E sender n chunk rest formatted w :
  configured (WASENDER_API_TOKEN E) = true ->
  format_recipient sender = Ok formatted ->
  http_post E (count_posts (trace w))
            (JDict [(lit "to", formatted); (lit "text", JStr chunk)]) = true ->
  send_chunks E sender n (chunk :: rest) w
  = (Raise NameError,
     mkWorld (files w)
       (trace w ++ [EvPost (JDict [(lit "to", formatted);
                                   (lit "text", JStr chunk)])])).
Proof.
  intros Htok Hfmt Hpost.
  cbn [send_chunks]. unfold bind, send_whatsapp_message, lift, post.
  rewrite Htok. cbn [negb]. unfold bind, lift. rewrite Hfmt, Hpost.
  reflexivity.
Qed.

(** The loop body after a delivery that failed: the loop ends there. *)
Lemma send_chunks_breaks_on_failure E sender n chunk rest formatted w :
  configured (WASENDER_API_TOKEN E) = true ->
  format_recipient sender = Ok formatted ->
  http_post E (count_posts (trace w))
            (JDict [(lit "to", formatted); (lit "text", JStr chunk)]) = false ->
  send_chunks E sender n (chunk :: rest) w
  = (Ok tt,
     mkWorld (files w)
       (trace w ++ [EvPost (JDict [(lit "to", formatted);
                                   (lit "text", JStr chunk)])])).
Proof.
  intros Htok Hfmt Hpost.
  cbn [send_chunks]. unfold bind, send_whatsapp_message, lift, post.
  rewrite Htok. cbn [negb]. unfold bind, lift. rewrite Hfmt, Hpost.
  reflexivity.
Qed.

(** Whatever the transport answers, the loop makes at most one POST and
    never pauses. *)
Lemma send_chunks_one_post_no_pause E sender n message_chunks w :
  exists t,
    trace (snd (send_chunks E sender n message_chunks w)) = trace w ++ t
    /\ (t = [] \/ exists payload, t = [EvPost payload]).
Proof.
  destruct message_chunks as [|chunk rest].
  - exists []. cbn. rewrite app_nil_r. auto.
  - cbn [send_chunks]. unfold bind, send_whatsapp_message, lift, post.
    destruct (configured (WASENDER_API_TOKEN E)); cbn [negb].
    + unfold bind, lift. destruct (format_recipient sender) as [f|e].
      * destruct (http_post E _ _); cbn; eauto.
      * exists []. cbn. rewrite app_nil_r. auto.
    + exists []. cbn. rewrite app_nil_r. auto.
Qed.

(** When the first delivery fails, the exchange is recorded all the same:
    the full reply is appended to the history and saved. *)
Lemma process_text_first_delivery_fails E sender safe text history reply
    chunk rest formatted w w1 w2 :
  load_conversation_history safe w = (Ok history, w1) ->
  get_gemini_response E text history w1 = (Ok reply, w2) ->
  reply <> [] ->
  split_message_default reply = chunk :: rest ->
  configured (WASENDER_API_TOKEN E) = true ->
  format_recipient sender = Ok formatted ->
  http_post E (count_posts (trace w2))
            (JDict [(lit "to", formatted); (lit "text", JStr chunk)]) = false ->
  process_text E sender safe text w
  = save_conversation_history safe
      (history ++ [turn (lit "user") text; turn (lit "model") (JStr reply)])
      (mkWorld (files w2)
         (trace w2 ++ [EvPost (JDict [(lit "to", formatted);
                                      (lit "text", JStr chunk)])])).
Proof.
  intros Hload Hgen Hne Hsplit Htok Hfmt Hpost.
  unfold process_text, bind at 1. rewrite Hload.
  unfold bind at 1. rewrite Hgen.
  destruct reply as [|c reply]; [congruence|].
  unfold bind at 1. rewrite Hsplit.
  now rewrite (send_chunks_breaks_on_failure _ _ _ _ _ _ _ Htok Hfmt Hpost).
Qed.

(** When the first delivery goes through, the handler raises before it
    reaches the lines that record the exchange. *)
Lemma process_text_first_delivery_raises E sender safe text history reply
    chunk rest formatted w w1 w2 :
  load_conversation_history safe w = (Ok history, w1) ->
  get_gemini_response E text history w1 = (Ok reply, w2) ->
  reply <> [] ->
  split_message_default reply = chunk :: rest ->
  configured (WASENDER_API_TOKEN E) = true ->
  format_recipient sender = Ok formatted ->
  http_post E (count_posts (trace w2))
            (JDict [(lit "to", formatted); (lit "text", JStr chunk)]) = true ->
  process_text E sender safe text w
  = (Raise NameError,
     mkWorld (files w2)
       (trace w2 ++ [EvPost (JDict [(lit "to", formatted);
                                    (lit "text", JStr chunk)])])).
Proof.
  intros Hload Hgen Hne Hsplit Htok Hfmt Hpost.
  unfold process_text, bind at 1. rewrite Hload.
  unfold bind at 1. rewrite Hgen.
  destruct reply as [|c reply]; [congruence|].
  unfold bind at 1. rewrite Hsplit.
  now rewrite (send_chunks_raises_after_delivery _ _ _ _ _ _ _ Htok Hfmt Hpost).
Qed.

(** C1.  The example exchange of the specification, with the service
    answering and the transport accepting every POST: the handler loads the
    history, calls the service and delivers the one chunk, then the read of
    the unbound [i] raises; the handler answers 500, appends no turn and
    never calls save. *)
Theorem webhook_delivered_exchange_not_recorded :
  let E := env_with (Some (lit "k")) (lit "Hi") (fun _ => true) in
  let out := webhook E hello_event empty_world in
  fst out = Ok ack_internal
  /\ trace (snd out)
     = [EvLoad (file_path (lit "123_s_whatsapp_net"));
        EvGenerateContent (JStr (lit "Hello"));
        EvPost (text_payload (lit "123") (lit "Hi"))]
  /\ saves (trace (snd out)) = []
  /\ files (snd out) (file_path (lit "123_s_whatsapp_net")) = Absent.
Proof.
  vm_compute. repeat split.
Qed.

(** C2.  With no generation credential and a transport that accepts every
    POST: the generator returns its apology without a call to the service
    and the apology is delivered as one chunk, then the read of the unbound
    [i] raises; the handler answers 500 and the exchange is neither appended
    nor saved. *)
Theorem webhook_apology_not_recorded :
  let E := env_with None (lit "Hi") (fun _ => true) in
  let out := webhook E hello_event empty_world in
  split_message_default apology_no_key = [apology_no_key]
  /\ fst out = Ok ack_internal
  /\ trace (snd out)
     = [EvLoad (file_path (lit "123_s_whatsapp_net"));
        EvPost (text_payload (lit "123") apology_no_key)]
  /\ saves (trace (snd out)) = []
  /\ files (snd out) (file_path (lit "123_s_whatsapp_net")) = Absent.
Proof.
  vm_compute. repeat split.
Qed.

(** C3.  A reply of two chunks with every delivery accepted: the first
    chunk is delivered, then the read of the unbound [i] in the pacing step
    raises; no pause is made, the second chunk is never delivered and the
    handler answers 500. *)
Theorem webhook_two_chunks_no_pause :
  let E := env_with (Some (lit "k")) reply_two_chunks (fun _ => true) in
  let out := webhook E hello_event empty_world in
  split_message_default reply_two_chunks = [lit "a
b
c"; lit "d"]
  /\ fst out = Ok ack_internal
  /\ sleeps (trace (snd out)) = []
  /\ posts (trace (snd out))
     = [EvPost (text_payload (lit "123") (lit "a
b
c"))].
Proof.
  vm_compute. repeat split.
Qed.

(** C4.  A reply of three chunks with a transport that accepts the first
    POST and would refuse the second: the first chunk is delivered, then the
    read of the unbound [i] raises; chunks two and three are never
    attempted, the handler answers 500 and the history is not saved. *)
Theorem webhook_second_failure_not_recorded :
  let E := env_with (Some (lit "k")) reply_three_chunks
                    (fun n => negb (Nat.eqb n 1)) in
  let out := webhook E hello_event empty_world in
  split_message_default reply_three_chunks = [lit "a
b
c"; lit "d
e
f"; lit "g"]
  /\ fst out = Ok ack_internal
  /\ posts (trace (snd out))
     = [EvPost (text_payload (lit "123") (lit "a
b
c"))]
  /\ saves (trace (snd out)) = []
  /\ files (snd out) (file_path (lit "123_s_whatsapp_net")) = Absent.
Proof.
  vm_compute. repeat split.
Qed.

(** The same reply when the transport refuses the first POST: nothing more
    is attempted and the full reply is appended to the history and saved. *)
Lemma webhook_first_failure_recorded :
  let E := env_with (Some (lit "k")) reply_three_chunks (fun _ => false) in
  let out := webhook E hello_event empty_world in
  fst out = Ok ack_success
  /\ posts (trace (snd out))
     = [EvPost (text_payload (lit "123") (lit "a
b
c"))]
  /\ saves (trace (snd out))
     = [EvSave (file_path (lit "123_s_whatsapp_net"))
          (JList [turn (lit "user") (JStr (lit "Hello"));
                  turn (lit "model") (JStr reply_three_chunks)])]
  /\ files (snd out) (file_path (lit "123_s_whatsapp_net"))
     = Holds (Document
                (JList [turn (lit "user") (JStr (lit "Hello"));
                        turn (lit "model") (JStr reply_three_chunks)])).
Proof.
  vm_compute. repeat split.
Qed.

(** * Further properties *)

(** ** The segmenter: shape of the chunks *)

Lemma len_app {A} (a b : list A) : len (a ++ b) = len a + len b.
Proof. unfold len. rewrite length_app. lia. Qed.

Lemma join_snoc sep ls l :
  join sep (ls ++ [l])
  = match ls with
    | [] => l
    | _ :: _ => join sep ls ++ sep :: l
    end.
Proof.
  induction ls as [|x ls IH]; [reflexivity|].
  destruct ls as [|y ls]; [reflexivity|].
  change (join sep ((x :: y :: ls) ++ [l]))
    with (x ++ sep :: join sep ((y :: ls) ++ [l])).
  rewrite IH.
  change (join sep (x :: y :: ls)) with (x ++ sep :: join sep (y :: ls)).
  now rewrite <- app_assoc.
Qed.

Lemma join_split_nl t : join nl (split_on nl t) = t.
Proof.
  induction t as [|c t IH]; [reflexivity|].
  cbn [split_on]. destruct (N.eqb c nl) eqn:Hc.
  - apply N.eqb_eq in Hc. subst c.
    destruct (split_on nl t) as [|p ps] eqn:Hs.
    { now apply split_on_nonempty in Hs. }
    change (join nl ([] :: p :: ps)) with ([] ++ nl :: join nl (p :: ps)).
    now rewrite IH.
  - destruct (split_on nl t) as [|p ps] eqn:Hs.
    { now apply split_on_nonempty in Hs. }
    destruct ps as [|q ps]; cbn in IH |- *; now rewrite <- IH.
Qed.

(** With [max_lines >= 1] a line is added and nothing else. *)
Lemma add_line_lines_exact ml st line :
  1 <= ml -> chunker_wf st ->
  lines_of (add_line ml st line) = lines_of st ++ [line].
Proof.
  intros Hml Hwf. destruct (add_line_lines ml st line Hwf) as [pad [Heq Hpad]].
  destruct Hwf as [Hc _]. unfold add_line, lines_of in *.
  destruct (ml <=? current_line_count st) eqn:Hfull.
  - apply Z.leb_le in Hfull. rewrite Heq, Hpad; [reflexivity|].
    apply len_pos_nonempty. lia.
  - cbn [chunks current_chunk]. now rewrite app_assoc.
Qed.

Lemma add_line_forall (P : str -> Prop) ml st line :
  chunker_wf st -> P [] -> P line ->
  Forall P (lines_of st) -> Forall P (lines_of (add_line ml st line)).
Proof.
  intros [Hc Hl] Hnil Hline Hall. unfold add_line, lines_of in *.
  destruct (ml <=? current_line_count st); cbn [chunks current_chunk].
  - apply Forall_app in Hall as [Hchunks Hcur].
    rewrite flat_map_app. cbn [flat_map]. rewrite app_nil_r.
    apply Forall_app. split; [|now repeat constructor].
    apply Forall_app. split; [exact Hchunks|].
    destruct (current_chunk st) as [|l ls] eqn:Hcc.
    + now repeat constructor.
    + now rewrite split_join_nl by (discriminate || exact Hl).
  - rewrite app_assoc. apply Forall_app. split; [exact Hall|].
    now repeat constructor.
Qed.

(** X1.  A text without line break that is within the width comes back as
    the one chunk it is, the empty text included. *)
Theorem split_message_short_text (text : str) (max_lines max_chars_per_line : Z) :
  1 <= max_lines -> no_nl text -> len text <= max_chars_per_line ->
  split_message text max_lines max_chars_per_line = [text].
Proof.
  intros Hml Hnl Hlen. unfold split_message.
  rewrite split_on_no_sep by exact Hnl. cbn [fold_left].
  unfold split_paragraph.
  replace (max_chars_per_line <? len text) with false
    by (symmetry; apply Z.ltb_ge; lia).
  unfold add_line. cbn [current_line_count chunks current_chunk].
  replace (max_lines <=? 0) with false by (symmetry; apply Z.leb_gt; lia).
  reflexivity.
Qed.

Lemma split_message_short_text_witness :
  split_message [] 3 100 = [[]].
Proof.
  apply (split_message_short_text [] 3 100).
  - lia.
  - intros [].
  - vm_compute. discriminate.
Defined.

Lemma short_paragraphs_lines ml mc ps : forall st,
  1 <= ml -> chunker_wf st -> Forall no_nl ps ->
  Forall (fun p => len p <= mc) ps ->
  lines_of (fold_left (split_paragraph ml mc) ps st) = lines_of st ++ ps.
Proof.
  induction ps as [|p ps IH]; intros st Hml Hwf Hnl Hshort.
  - cbn. now rewrite app_nil_r.
  - inversion Hnl; subst. inversion Hshort; subst. cbn [fold_left].
    assert (Hstep : split_paragraph ml mc st p = add_line ml st p).
    { unfold split_paragraph.
      now replace (mc <? len p) with false by (symmetry; apply Z.ltb_ge; lia). }
    rewrite Hstep, IH; try assumption.
    + rewrite add_line_lines_exact by assumption. now rewrite <- app_assoc.
    + now apply add_line_wf.
Qed.

(** X2.  When every paragraph of the text is within the width, the lines
    of the chunks are the paragraphs of the text, and joining them on line
    breaks gives the text back. *)
Theorem split_message_short_paragraphs_round_trip
    (text : str) (max_lines max_chars_per_line : Z) :
  1 <= max_lines ->
  Forall (fun p => len p <= max_chars_per_line) (split_on nl text) ->
  flat_map (split_on nl) (split_message text max_lines max_chars_per_line)
  = split_on nl text
  /\ join nl (flat_map (split_on nl)
                (split_message text max_lines max_chars_per_line)) = text.
Proof.
  intros Hml Hshort.
  assert (H : flat_map (split_on nl)
                (split_message text max_lines max_chars_per_line)
              = split_on nl text).
  { rewrite split_message_lines.
    now rewrite short_paragraphs_lines
      by (try apply split_on_pieces; try apply initial_chunker_wf; assumption). }
  split; [exact H | rewrite H; apply join_split_nl].
Qed.

Lemma split_message_short_paragraphs_round_trip_witness :
  join nl (flat_map (split_on nl) (split_message reply_three_chunks 3 100))
  = reply_three_chunks.
Proof.
  apply (split_message_short_paragraphs_round_trip reply_three_chunks 3 100).
  - lia.
  - vm_compute. repeat constructor; discriminate.
Defined.

(** ** The segmenter: width of the lines *)

Lemma pack_word_fits ml mc p w :
  packer_fits mc p -> packer_fits mc (pack_word ml mc p w).
Proof.
  intros [Hlen Hfit]. unfold pack_word, packer_fits.
  destruct (current_length p + len w + 1 <=? mc) eqn:Hroom;
    cbn [current_line current_length].
  - apply Z.leb_le in Hroom. split; [|left; lia].
    rewrite join_snoc. destruct (current_line p) as [|l ls] eqn:Hcur.
    + cbn in Hlen. lia.
    + rewrite len_app.
      replace (len (sp :: w)) with (1 + len w)
        by (unfold len; cbn [length]; lia).
      lia.
  - split; [cbn [join]; lia | right; now exists w].
Qed.

Lemma packed_line_fits mc p :
  0 <= mc -> packer_fits mc p -> Forall is_word (current_line p) ->
  line_fits mc (join sp (current_line p)).
Proof.
  intros Hmc [Hlen [Hfit | [w Hw]]] Hwords.
  - left. lia.
  - rewrite Hw in *. inversion Hwords; subst. now right.
Qed.

Lemma pack_word_width ml mc p w :
  0 <= mc -> packer_wf p -> packer_fits mc p ->
  Forall (line_fits mc) (lines_of (pk_chunker p)) ->
  Forall (line_fits mc) (lines_of (pk_chunker (pack_word ml mc p w))).
Proof.
  intros Hmc [Hwf Hwords] Hfits Hall. unfold pack_word.
  destruct (_ <=? _); cbn [pk_chunker]; [exact Hall|].
  apply add_line_forall; try assumption.
  - left. cbn. lia.
  - now apply packed_line_fits.
Qed.

Lemma pack_words_width ml mc ws : forall p,
  0 <= mc -> packer_wf p -> Forall is_word ws -> packer_fits mc p ->
  Forall (line_fits mc) (lines_of (pk_chunker p)) ->
  packer_fits mc (fold_left (pack_word ml mc) ws p)
  /\ Forall (line_fits mc)
            (lines_of (pk_chunker (fold_left (pack_word ml mc) ws p))).
Proof.
  induction ws as [|w ws IH]; intros p Hmc Hp Hws Hfits Hall; [now split|].
  inversion Hws; subst. cbn [fold_left]. apply IH; try assumption.
  - now apply pack_word_wf.
  - now apply pack_word_fits.
  - now apply pack_word_width.
Qed.

Lemma split_paragraph_width ml mc st p :
  0 <= mc -> chunker_wf st ->
  Forall (line_fits mc) (lines_of st) ->
  Forall (line_fits mc) (lines_of (split_paragraph ml mc st p)).
Proof.
  intros Hmc Hwf Hall. unfold split_paragraph.
  destruct (mc <? len p) eqn:Hlong.
  - assert (Hp0 : packer_wf (mkPacker st [] 0)) by now split.
    assert (Hf0 : packer_fits mc (mkPacker st [] 0)).
    { split; cbn; [lia | left; lia]. }
    pose proof (pack_words_wf ml mc _ _ Hp0 (words_are_words p)) as [Hwf' Hw'].
    destruct (pack_words_width ml mc (words p) _ Hmc Hp0 (words_are_words p)
                Hf0 Hall) as [Hfits Hall'].
    pose proof (packed_line_fits mc _ Hmc Hfits Hw') as Hline.
    destruct (current_line _); [exact Hall'|].
    apply add_line_forall; try assumption.
    left. cbn. lia.
  - apply Z.ltb_ge in Hlong. apply add_line_forall; try assumption.
    + left. cbn. lia.
    + now left.
Qed.

Lemma split_paragraphs_width ml mc ps : forall st,
  0 <= mc -> chunker_wf st -> Forall no_nl ps ->
  Forall (line_fits mc) (lines_of st) ->
  Forall (line_fits mc) (lines_of (fold_left (split_paragraph ml mc) ps st)).
Proof.
  induction ps as [|p ps IH]; intros st Hmc Hwf Hnl Hall; [exact Hall|].
  inversion Hnl; subst. cbn [fold_left]. apply IH; try assumption.
  - now apply split_paragraph_wf.
  - now apply split_paragraph_width.
Qed.

(** X3.  For a width [max_chars_per_line >= 0], every line of every chunk
    is at most [max_chars_per_line] characters long, unless the line is a
    single word, which is never cut. *)
Theorem split_message_line_width (text : str) (max_lines max_chars_per_line : Z) :
  0 <= max_chars_per_line ->
  Forall (line_fits max_chars_per_line)
         (flat_map (split_on nl)
            (split_message text max_lines max_chars_per_line)).
Proof.
  intros Hmc. rewrite split_message_lines.
  apply split_paragraphs_width; try assumption.
  - apply initial_chunker_wf.
  - apply split_on_pieces.
  - constructor.
Qed.

Lemma split_message_line_width_witness :
  Forall (line_fits 5)
         (flat_map (split_on nl)
            (split_message (lit "aaaa bbb cc ddddddd e ff") 2 5)).
Proof.
  apply (split_message_line_width (lit "aaaa bbb cc ddddddd e ff") 2 5). lia.
Defined.

(** ** The segmenter: how chunks fill up *)

Lemma add_line_full ml st line :
  1 <= ml -> chunker_wf st -> chunker_bounded ml st ->
  Forall (fun c => line_count c = ml) (chunks st) ->
  Forall (fun c => line_count c = ml) (chunks (add_line ml st line)).
Proof.
  intros Hml [Hc Hl] [Hb _] Hfull. unfold add_line.
  destruct (ml <=? current_line_count st) eqn:Hflush; cbn [chunks];
    [|exact Hfull].
  apply Z.leb_le in Hflush. apply Forall_app. split; [exact Hfull|].
  repeat constructor. unfold line_count.
  rewrite split_join_nl; [lia | | exact Hl]. apply len_pos_nonempty. lia.
Qed.

Lemma pack_words_full ml mc ws : forall p,
  1 <= ml -> packer_wf p -> Forall is_word ws ->
  chunker_bounded ml (pk_chunker p) ->
  Forall (fun c => line_count c = ml) (chunks (pk_chunker p)) ->
  Forall (fun c => line_count c = ml)
         (chunks (pk_chunker (fold_left (pack_word ml mc) ws p))).
Proof.
  induction ws as [|w ws IH]; intros p Hml Hp Hws Hb Hfull; [exact Hfull|].
  inversion Hws; subst. cbn [fold_left]. apply IH; try assumption.
  - now apply pack_word_wf.
  - now apply pack_word_bounded.
  - destruct Hp as [Hwf _]. unfold pack_word.
    destruct (_ <=? _); cbn [pk_chunker]; [exact Hfull|].
    now apply add_line_full.
Qed.

Lemma split_paragraph_full ml mc st p :
  1 <= ml -> chunker_wf st -> chunker_bounded ml st ->
  Forall (fun c => line_count c = ml) (chunks st) ->
  Forall (fun c => line_count c = ml) (chunks (split_paragraph ml mc st p)).
Proof.
  intros Hml Hwf Hb Hfull. unfold split_paragraph.
  destruct (mc <? len p); [|now apply add_line_full].
  assert (Hp0 : packer_wf (mkPacker st [] 0)) by now split.
  pose proof (pack_words_wf ml mc _ _ Hp0 (words_are_words p)) as [Hwf' _].
  pose proof (pack_words_bounded ml mc _ _ Hml Hp0 (words_are_words p) Hb)
    as Hb'.
  pose proof (pack_words_full ml mc _ _ Hml Hp0 (words_are_words p) Hb Hfull)
    as Hfull'.
  destruct (current_line _); [exact Hfull'|]. now apply add_line_full.
Qed.

Lemma split_paragraphs_full ml mc ps : forall st,
  1 <= ml -> chunker_wf st -> Forall no_nl ps -> chunker_bounded ml st ->
  Forall (fun c => line_count c = ml) (chunks st) ->
  Forall (fun c => line_count c = ml)
         (chunks (fold_left (split_paragraph ml mc) ps st)).
Proof.
  induction ps as [|p ps IH]; intros st Hml Hwf Hnl Hb Hfull; [exact Hfull|].
  inversion Hnl; subst. cbn [fold_left]. apply IH; try assumption.
  - now apply split_paragraph_wf.
  - now apply split_paragraph_bounded.
  - now apply split_paragraph_full.
Qed.

(** X4.  Chunks are filled before a new one is opened: for
    [max_lines >= 1], every chunk but the last has exactly [max_lines]
    lines. *)
Theorem split_message_chunks_full
    (text : str) (max_lines max_chars_per_line : Z)
    (earlier : list str) (last_chunk : str) :
  1 <= max_lines ->
  split_message text max_lines max_chars_per_line = earlier ++ [last_chunk] ->
  Forall (fun chunk => line_count chunk = max_lines) earlier.
Proof.
  intros Hml. unfold split_message.
  assert (Hb0 : chunker_bounded max_lines (mkChunker [] [] 0)).
  { split; [cbn; lia | constructor]. }
  pose proof (split_paragraphs_full max_lines max_chars_per_line _ _ Hml
                initial_chunker_wf (split_on_pieces text) Hb0
                (Forall_nil _)) as Hfull.
  set (st := fold_left _ _ _) in *.
  destruct (current_chunk st) as [|l ls]; intros Heq.
  - rewrite Heq in Hfull. now apply Forall_app in Hfull as [Hfront _].
  - apply app_inj_tail in Heq as [<- _]. exact Hfull.
Qed.

Lemma split_message_chunks_full_witness :
  Forall (fun chunk => line_count chunk = 2)
         [lit "aaaa
bbb"; lit "cc
dddd"].
Proof.
  apply (split_message_chunks_full (lit "aaaa bbb cc dddd e ff") 2 5
           [lit "aaaa
bbb"; lit "cc
dddd"] (lit "e ff")).
  - lia.
  - reflexivity.
Defined.

(** ** The segmenter: when nothing is sent *)

Lemma split_paragraph_blank ml mc st p :
  blank_overflow mc p -> split_paragraph ml mc st p = st.
Proof.
  intros [Hlong Hwords]. unfold split_paragraph.
  replace (mc <? len p) with true by (symmetry; now apply Z.ltb_lt).
  now rewrite Hwords.
Qed.

Lemma pack_words_line_nonempty ml mc ws : forall p,
  current_line p <> [] ->
  current_line (fold_left (pack_word ml mc) ws p) <> [].
Proof.
  induction ws as [|w ws IH]; intros p Hp; [exact Hp|].
  cbn [fold_left]. apply IH, pack_word_line_nonempty.
Qed.

Lemma split_paragraph_adds_line ml mc st p :
  ~ blank_overflow mc p ->
  current_chunk (split_paragraph ml mc st p) <> [].
Proof.
  intros Hnot. unfold split_paragraph.
  destruct (mc <? len p) eqn:Hlong; [|apply add_line_current_nonempty].
  apply Z.ltb_lt in Hlong.
  destruct (words p) as [|w ws] eqn:Hwords.
  { exfalso. apply Hnot. now split. }
  cbn [fold_left].
  pose proof (pack_words_line_nonempty ml mc ws
                (pack_word ml mc (mkPacker st [] 0) w)
                (pack_word_line_nonempty ml mc _ w)) as Hne.
  destruct (current_line _); [congruence|].
  apply add_line_current_nonempty.
Qed.

Lemma blank_overflow_dec mc p : blank_overflow mc p \/ ~ blank_overflow mc p.
Proof.
  unfold blank_overflow. destruct (Z.ltb_spec mc (len p)) as [Hlt | Hge].
  - destruct (words p); [now left | right; intros [_ Hw]; discriminate].
  - right. intros [Hlt _]. lia.
Qed.

Lemma split_paragraphs_no_line ml mc ps : forall st,
  chunker_wf st -> Forall no_nl ps ->
  (Forall (blank_overflow mc) ps
   /\ fold_left (split_paragraph ml mc) ps st = st)
  \/ (~ Forall (blank_overflow mc) ps
      /\ lines_of (fold_left (split_paragraph ml mc) ps st) <> []).
Proof.
  induction ps as [|p ps IH]; intros st Hwf Hnl; [left; now split|].
  inversion Hnl; subst. cbn [fold_left].
  destruct (blank_overflow_dec mc p) as [Hblank | Hline].
  - rewrite split_paragraph_blank by exact Hblank.
    destruct (IH st Hwf H2) as [[Hall Heq] | [Hnot Hne]].
    + left. split; [now constructor | exact Heq].
    + right. split; [|exact Hne]. intros Hall. inversion Hall; subst. tauto.
  - right. split; [intros Hall; inversion Hall; subst; tauto|].
    destruct (split_paragraphs_extends ml mc ps
                (split_paragraph ml mc st p)) as [more Hmore];
      [now apply split_paragraph_wf | assumption |].
    rewrite Hmore. unfold lines_of at 1.
    pose proof (split_paragraph_adds_line ml mc st p Hline) as Hcur.
    destruct (current_chunk (split_paragraph ml mc st p)); [congruence|].
    intros Heq. apply app_eq_nil in Heq as [Heq _].
    apply app_eq_nil in Heq as [_ Heq]. discriminate.
Qed.

(** X5.  [split_message] returns no chunk at all exactly when every
    paragraph of the text is longer than the width and holds no word
    (white space only); any other text gives at least one chunk. *)
Theorem split_message_empty_iff (text : str) (max_lines max_chars_per_line : Z) :
  split_message text max_lines max_chars_per_line = []
  <-> Forall (blank_overflow max_chars_per_line) (split_on nl text).
Proof.
  pose proof (split_message_lines text max_lines max_chars_per_line) as Hlines.
  destruct (split_paragraphs_no_line max_lines max_chars_per_line
              (split_on nl text) (mkChunker [] [] 0) initial_chunker_wf
              (split_on_pieces text)) as [[Hall Heq] | [Hnot Hne]].
  - split; [intros _; exact Hall | intros _].
    unfold split_message. now rewrite Heq.
  - split; [|tauto]. intros Hempty. rewrite Hempty in Hlines.
    cbn in Hlines. now rewrite <- Hlines in Hne.
Qed.

Lemma split_message_empty_iff_witness :
  split_message (lit "      ") 3 5 = [].
Proof.
  apply (proj2 (split_message_empty_iff (lit "      ") 3 5)).
  repeat constructor.
Defined.

(** ** The history store: what is saved is what is loaded *)


Lemma str_eqb_neq a b : a <> b -> str_eqb a b = false.
Proof. intros H. unfold str_eqb. now destruct (list_eq_dec N.eq_dec a b). Qed.

Lemma load_conversation_history_run user_id w :
  exists history,
    load_conversation_history user_id w
    = (Ok history,
       mkWorld (files w) (trace w ++ [EvLoad (file_path user_id)]))
    /\ Forall valid_turn history
    /\ (forall l, files w (file_path user_id) = Holds (Document (JList l)) ->
                  Forall valid_turn l -> history = l).
Proof.
  unfold load_conversation_history, bind, emit, try_except, open_json_load.
  cbn [files trace].
  destruct (files w (file_path user_id)) as [| |[|j]] eqn:Hf;
    try (exists []; split; [reflexivity | split; [constructor | discriminate]]).
  destruct j as [| | | | |l|];
    try (exists []; split; [reflexivity | split; [constructor | discriminate]]).
  destruct (forallb is_turn l) eqn:Hall.
  - exists l. split; [reflexivity|]. split; [now apply forallb_is_turn|].
    intros l' Hl' _. now injection Hl' as <-.
  - exists []. split; [reflexivity|]. split; [constructor|].
    intros l' Hl' Hvalid. injection Hl' as <-.
    apply forallb_is_turn in Hvalid. congruence.
Qed.

(** X6.  Whatever the store holds, the history that
    [load_conversation_history] hands out consists of records with a role
    and a parts field. *)
Theorem load_conversation_history_valid (user_id : str) (w : world) :
  exists history,
    fst (load_conversation_history user_id w) = Ok history
    /\ Forall valid_turn history.
Proof.
  destruct (load_conversation_history_run user_id w) as [h [Hrun [Hvalid _]]].
  exists h. now rewrite Hrun.
Qed.

Lemma save_conversation_history_run user_id history w :
  save_conversation_history user_id history w
  = (Ok tt,
     mkWorld (match files w (file_path user_id) with
              | Denied => files w
              | _ => fun q => if str_eqb q (file_path user_id)
                              then Holds (Document (JList history))
                              else files w q
              end)
             (trace w ++ [EvSave (file_path user_id) (JList history)])).
Proof.
  unfold save_conversation_history, bind, emit, try_except, open_json_dump,
    write_file, ret.
  cbn [files trace]. now destruct (files w (file_path user_id)).
Qed.




(** X8.  [save_conversation_history] never raises; when the file cannot be
    opened the failure is swallowed and every file is left as it was. *)
Theorem save_failure_swallowed (user_id : str) (history : list json) (w : world) :
  fst (save_conversation_history user_id history w) = Ok tt
  /\ (files w (file_path user_id) = Denied ->
      files (snd (save_conversation_history user_id history w)) = files w).
Proof.
  rewrite save_conversation_history_run. cbn [fst snd files].
  split; [reflexivity|]. now intros ->.
Qed.

Lemma save_failure_swallowed_witness :
  files (snd (save_conversation_history (lit "a") recorded_exchange
                (mkWorld (fun _ => Denied) [])))
  = fun _ => Denied.
Proof.
  apply (save_failure_swallowed (lit "a") recorded_exchange
           (mkWorld (fun _ => Denied) [])).
  reflexivity.
Defined.





(** ** The reply generator *)

Lemma lstrip_head s : forall c rest, lstrip s = c :: rest -> is_space c = false.
Proof.
  induction s as [|x s IH]; intros c rest H; [discriminate|].
  cbn in H. destruct (is_space x) eqn:Hx; [now apply IH in H|].
  now injection H as <- _.
Qed.

Lemma lstrip_suffix s : exists front, s = front ++ lstrip s.
Proof.
  induction s as [|x s [front IH]]; [now exists []|].
  cbn. destruct (is_space x).
  - exists (x :: front). cbn. now f_equal.
  - now exists [].
Qed.

Lemma lstrip_blank s : forallb is_space s = true -> lstrip s = [].
Proof.
  induction s as [|x s IH]; [reflexivity|].
  cbn. intros H. apply andb_true_iff in H as [Hx Hs]. now rewrite Hx, IH.
Qed.

Lemma strip_blank s : forallb is_space s = true -> strip s = [].
Proof. intros H. unfold strip. now rewrite (lstrip_blank s H). Qed.

Lemma strip_trimmed s : trimmed (strip s).
Proof.
  unfold strip, trimmed. split.
  - intros c rest H. apply (f_equal (@rev char)) in H.
    rewrite rev_involutive in H. cbn [rev] in H.
    destruct (lstrip_suffix (rev (lstrip s))) as [front Hfront].
    rewrite H in Hfront. apply (f_equal (@rev char)) in Hfront.
    rewrite rev_involutive, app_assoc, rev_unit in Hfront.
    now apply lstrip_head in Hfront.
  - intros c front H. apply (f_equal (@rev char)) in H.
    rewrite rev_involutive, rev_unit in H. now apply lstrip_head in H.
Qed.

Lemma try_except_ret {A} (m : M A) (a : A) w :
  exists r, try_except m (fun _ => ret a) w = (Ok r, snd (m w)).
Proof.
  unfold try_except, ret. destruct (m w) as [[r|e] w']; eauto.
Qed.

Lemma bind_lift_ok {A B} (a : A) (k : A -> M B) w :
  bind (lift (Ok a)) k w = k a w.
Proof. reflexivity. Qed.

Lemma bind_lift_raise {A B} e (k : A -> M B) w :
  bind (lift (Raise e)) k w = (Raise e, w).
Proof. reflexivity. Qed.

Lemma bind_snd_quiet {A B} (m : M A) (k : A -> M B) w :
  (forall a w', snd (k a w') = w') -> snd (bind m k w) = snd (m w).
Proof.
  intros Hk. unfold bind. destruct (m w) as [[a|e] w']; [apply Hk | reflexivity].
Qed.

Lemma get_gemini_response_run
    (E : env) (message_text : json) (history : list json) (w : world) :
  exists reply calls,
    fst (get_gemini_response E message_text history w) = Ok reply
    /\ files (snd (get_gemini_response E message_text history w)) = files w
    /\ trace (snd (get_gemini_response E message_text history w))
       = trace w ++ calls
    /\ (calls = []
        \/ calls = [match history with
                    | [] => EvGenerateContent message_text
                    | _ :: _ => EvStartChat history message_text
                    end]).
Proof.
  unfold get_gemini_response.
  destruct (configured (GEMINI_API_KEY E)); cbn [negb].
  2:{ exists apology_no_key, []. cbn. rewrite app_nil_r. auto. }
  match goal with
  | |- context [try_except ?m ?h w] =>
      destruct (try_except_ret m apology_trouble w) as [reply Hrun];
      assert (Hworld :
        snd (m w) = w
        \/ snd (m w)
           = mkWorld (files w)
               (trace w ++ [match history with
                            | [] => EvGenerateContent message_text
                            | _ :: _ => EvStartChat history message_text
                            end]))
  end.
  { destruct (py_slice message_text) as [[]|e];
      [rewrite bind_lift_ok; right | rewrite bind_lift_raise; now left].
    rewrite bind_snd_quiet.
    - unfold call_gemini, bind, emit, raise, ret.
      destruct history; now destruct (gemini E _ message_text).
    - intros [r|] w'; [|reflexivity].
      destruct (resp_text r) as [| |[|c s]]; try reflexivity;
        now destruct (resp_candidates r) as [[| |]|]. }
  rewrite Hrun. cbn [fst snd]. exists reply.
  destruct Hworld as [-> | ->].
  - exists []. rewrite app_nil_r. auto.
  - eexists. cbn [files trace]. auto.
Qed.

(** X10.  [get_gemini_response] never raises and touches no file; it
    makes at most one call to the service, a chat call carrying the whole
    history when there is one and a plain call otherwise. *)
Theorem get_gemini_response_contained
    (E : env) (message_text : json) (history : list json) (w : world) :
  exists reply calls,
    fst (get_gemini_response E message_text history w) = Ok reply
    /\ files (snd (get_gemini_response E message_text history w)) = files w
    /\ trace (snd (get_gemini_response E message_text history w))
       = trace w ++ calls
    /\ (calls = []
        \/ calls = [match history with
                    | [] => EvGenerateContent message_text
                    | _ :: _ => EvStartChat history message_text
                    end]).
Proof. apply get_gemini_response_run. Qed.

(** X11.  With the credential set, a message that is neither a string nor
    a list (a number, a boolean, a record, null) fails at the slice of the
    log line: the generator answers with its "trouble processing" apology
    and the service is never called. *)
Theorem get_gemini_response_unsliceable
    (E : env) (message_text : json) (history : list json) (w : world) :
  configured (GEMINI_API_KEY E) = true ->
  (forall s, message_text <> JStr s) ->
  (forall l, message_text <> JList l) ->
  get_gemini_response E message_text history w = (Ok apology_trouble, w).
Proof.
  intros Hkey Hstr Hlist. unfold get_gemini_response. rewrite Hkey.
  cbn [negb]. unfold try_except.
  destruct message_text as [| | | |s|l|]; cbn [py_slice];
    try (rewrite bind_lift_raise; reflexivity).
  - now destruct (Hstr s).
  - now destruct (Hlist l).
Qed.

Lemma get_gemini_response_unsliceable_witness :
  get_gemini_response (env_with (Some (lit "k")) (lit "Hi") (fun _ => true))
    (JInt 7) [] empty_world
  = (Ok apology_trouble, empty_world).
Proof.
  apply get_gemini_response_unsliceable; [reflexivity | discriminate..].
Defined.

(** X12.  With the credential set, when the service answers a string
    message with a non-empty primary text, the reply is that text trimmed:
    neither its first nor its last character is white space. *)
Theorem get_gemini_response_trims
    (E : env) (prompt : str) (history : list json) (w : world)
    (r : response) (c : char) (s : str) :
  configured (GEMINI_API_KEY E) = true ->
  gemini E history (JStr prompt) = ApiReturns (Some r) ->
  resp_text r = Text (c :: s) ->
  fst (get_gemini_response E (JStr prompt) history w) = Ok (strip (c :: s))
  /\ trimmed (strip (c :: s)).
Proof.
  intros Hkey Hapi Htext. split; [|apply strip_trimmed].
  unfold get_gemini_response. rewrite Hkey. cbn [negb py_slice].
  unfold try_except. rewrite bind_lift_ok.
  unfold call_gemini, bind, emit, ret. rewrite Hapi.
  destruct history; cbn; now rewrite Htext.
Qed.

Lemma get_gemini_response_trims_witness :
  fst (get_gemini_response
         (env_with (Some (lit "k")) (lit "  Hi there
") (fun _ => true))
         (JStr (lit "Hello")) [] empty_world)
  = Ok (lit "Hi there").
Proof.
  apply (get_gemini_response_trims
           (env_with (Some (lit "k")) (lit "  Hi there
") (fun _ => true))
           (lit "Hello") [] empty_world
           (mkResponse (Text (lit "  Hi there
")) None) 32%N (lit " Hi there
")); reflexivity.
Defined.

(** ** The transport *)

(** The call of the handler is the general function at type ['text']. *)
Lemma send_whatsapp_message_full_text E recipient chunk media_url :
  send_whatsapp_message_full E recipient (JStr chunk) (JStr (lit "text"))
    media_url
  = send_whatsapp_message E recipient chunk.
Proof. reflexivity. Qed.




(** X14.  Nothing is posted and [False] is returned when no token is
    configured, and, for a string recipient, when a message that is not of
    type ['text'] comes without a media URL or with a type other than
    image, video, audio and document. *)
Theorem send_whatsapp_message_full_refuses
    (E : env) (recipient : str) (message_content message_type media_url : json)
    (w : world) :
  configured (WASENDER_API_TOKEN E) = false
  \/ (py_eq_str message_type (lit "text") = false
      /\ (truthy media_url = false
          \/ (py_eq_str message_type (lit "image") = false
              /\ py_eq_str message_type (lit "video") = false
              /\ py_eq_str message_type (lit "audio") = false
              /\ py_eq_str message_type (lit "document") = false))) ->
  send_whatsapp_message_full E (JStr recipient) message_content message_type
    media_url w
  = (Ok false, w).
Proof.
  intros H. unfold send_whatsapp_message_full.
  destruct (configured (WASENDER_API_TOKEN E)); cbn [negb]; [|reflexivity].
  destruct H as [H | [Htext Hmedia]]; [discriminate|].
  assert (Hfmt : exists f, format_recipient (JStr recipient) = Ok f).
  { unfold format_recipient. cbn [truthy py_in rbind].
    destruct recipient; [eauto|].
    destruct (contains _ _); cbn [py_split_at_head]; eauto. }
  destruct Hfmt as [f ->]. rewrite bind_lift_ok.
  unfold build_payload. rewrite Htext.
  destruct Hmedia as [-> | [-> [-> [-> ->]]]].
  - now rewrite !andb_false_r.
  - reflexivity.
Qed.

Lemma send_whatsapp_message_full_refuses_witness :
  send_whatsapp_message_full (env_with None [] (fun _ => true))
    (JStr (lit "123")) (JStr (lit "look")) (JStr (lit "image")) JNull
    empty_world
  = (Ok false, empty_world).
Proof.
  apply send_whatsapp_message_full_refuses.
  right. split; [reflexivity | left; reflexivity].
Defined.


(** ** One exchange *)


Lemma bind_ok {A B} (m : M A) (k : A -> M B) w a w' :
  m w = (Ok a, w') -> bind m k w = k a w'.
Proof. intros H. unfold bind. now rewrite H. Qed.




(** ** The handler as a whole *)






(** X17.  An object whose event is not ["messages.upsert"] is acknowledged
    as a success and changes nothing. *)
Theorem webhook_ignores_other_events
    (E : env) (top : list (str * json)) (w : world) :
  dict_get top (lit "event") <> Some (JStr (lit "messages.upsert")) ->
  webhook E (JDict top) w = (Ok ack_success, w).
Proof.
  intros Hev. unfold webhook, try_except, webhook_body, is_upsert.
  cbn [py_get rbind].
  assert (Hne : py_eq_str (match dict_get top (lit "event") with
                           | Some x => x
                           | None => JNull
                           end) (lit "messages.upsert") = false).
  { destruct (dict_get top (lit "event")) as [[| | | |s| |]|]; try reflexivity.
    cbn [py_eq_str]. apply str_eqb_neq. intros ->. now apply Hev. }
  now rewrite Hne.
Qed.

Lemma webhook_ignores_other_events_witness :
  webhook (env_with None [] (fun _ => true))
          (JDict [(lit "event", JStr (lit "session.status"))]) empty_world
  = (Ok ack_success, empty_world).
Proof.
  apply webhook_ignores_other_events. discriminate.
Defined.

Lemma falsy_field_get d k :
  falsy_field d k ->
  exists v, py_get (JDict d) k JNull = Ok v /\ truthy v = false.
Proof.
  unfold falsy_field. cbn [py_get].
  destruct (dict_get d k) as [v|]; intros H; eauto.
Qed.

Ltac enter_upsert H :=
  let top := fresh "top" in
  let body := fresh "body" in
  let Hev := fresh "Hev" in
  let Hdata := fresh "Hdata" in
  let Hmsg := fresh "Hmsg" in
  let Hkey := fresh "Hkey" in
  let Hne := fresh "Hne" in
  destruct H as [top [body [-> [Hev [Hdata [Hmsg [Hne Hkey]]]]]]];
  unfold webhook, try_except, webhook_body, is_upsert;
  rewrite (py_get_found _ _ _ _ Hev), (py_get_found _ _ _ _ Hdata),
    (py_getitem_found _ _ _ Hdata);
  cbn [rbind];
  replace (py_eq_str (JStr (lit "messages.upsert")) (lit "messages.upsert"))
    with true by reflexivity;
  cbn [negb]; rewrite (dict_get_nonempty _ _ _ Hmsg); cbn [negb rbind];
  rewrite (py_get_found _ _ _ _ Hmsg), (py_getitem_found _ _ _ Hmsg);
  cbn [rbind]; rewrite bind_lift_ok;
  match goal with
  | |- context [negb (truthy (JDict ?m))] =>
      replace (truthy (JDict m)) with true
        by (destruct m; [congruence | reflexivity])
  end;
  cbn [negb]; rewrite bind_lift_ok; rewrite Hkey; cbn [rbind].





Lemma extract_no_text message_info :
  no_text message_info ->
  exists t is_text,
    extract_text (JDict message_info) = Ok (t, is_text)
    /\ is_text && truthy t = false.
Proof.
  intros [Hmsg | [m [Hm [Hne [Hext Hconv]]]]]; unfold extract_text.
  - destruct (falsy_field_get _ _ Hmsg) as [v [-> Hv]]. cbn [rbind].
    rewrite Hv. now exists JNull, false.
  - rewrite (py_get_found _ _ _ _ Hm), (py_getitem_found _ _ _ Hm).
    cbn [rbind]. destruct m as [|kv m]; [congruence|].
    cbn [truthy py_in rbind]. unfold falsy_field in Hconv.
    destruct (dict_get (kv :: m) (lit "conversation")) as [t|] eqn:Hc.
    + rewrite (py_getitem_found _ _ _ Hc). cbn [rbind].
      exists t, true. now rewrite Hconv.
    + rewrite Hext. now exists JNull, false.
Qed.

Lemma safe_sender_id_str E s :
  safe_sender_id E (JStr s)
  = Ok (map (fun c => if isalnum E c then c else underscore) s).
Proof.
  unfold safe_sender_id. cbn [py_iter rbind]. rewrite sanitize_chars.
  cbn [rbind]. f_equal.
  rewrite <- (concat_singletons
                (map (fun c => if isalnum E c then c else underscore) s)).
  now rewrite map_map.
Qed.

(** X20.  A message from a string sender that is neither self-sent nor a
    stub and carries no usable text (no message, a shape that is neither a
    conversation nor an extended text, or an empty conversation) is
    acknowledged as a success: no history is read, nothing is generated,
    delivered or saved. *)
Theorem webhook_skips_messages_without_text
    (E : env) (data : json) (message_info key : list (str * json))
    (c : char) (sender : str) (w : world) :
  upsert_of data message_info key ->
  falsy_field key (lit "fromMe") ->
  dict_get key (lit "remoteJid") = Some (JStr (c :: sender)) ->
  falsy_field message_info (lit "messageStubType") ->
  no_text message_info ->
  webhook E data w = (Ok ack_success, w).
Proof.
  intros Hup Hfrom Hjid Hstub Hno.
  destruct (falsy_field_get _ _ Hfrom) as [fm [Hfm Hfalse]].
  destruct (falsy_field_get _ _ Hstub) as [stub [Hst Hnostub]].
  destruct (extract_no_text _ Hno) as [t [is_text [Htext Hskip]]].
  enter_upsert Hup.
  rewrite Hfm, bind_lift_ok, Hfalse, (py_get_found _ _ _ _ Hjid), bind_lift_ok.
  rewrite Htext, bind_lift_ok, Hst, bind_lift_ok, Hnostub.
  cbn [truthy negb]. rewrite safe_sender_id_str, bind_lift_ok.
  cbn [fst snd]. rewrite Hskip. reflexivity.
Qed.

Lemma webhook_skips_messages_without_text_witness :
  webhook (env_with (Some (lit "k")) (lit "Hi") (fun _ => true))
          (image_event (lit "123@s.whatsapp.net")) empty_world
  = (Ok ack_success, empty_world).
Proof.
  eapply (webhook_skips_messages_without_text _
            (image_event (lit "123@s.whatsapp.net"))).
  - do 2 eexists. repeat (split; [reflexivity|]).
    split; [discriminate | reflexivity].
  - reflexivity.
  - reflexivity.
  - exact I.
  - right. eexists. split; [reflexivity|].
    split; [discriminate|]. split; [reflexivity | exact I].
Defined.

(** X21.  The two inbound shapes are treated alike: an extended text
    message is handled exactly as a plain conversation with the same
    sender and the same text. *)
Theorem webhook_extended_like_conversation
    (E : env) (remote_jid : str) (from_me : bool) (text : str) (w : world) :
  webhook E (extended_event remote_jid from_me text) w
  = webhook E (upsert_event remote_jid from_me text) w.
Proof.
  destruct from_me; reflexivity.
Qed.

(** ** One exchange: what is recorded *)


Lemma posts_app a b : posts (a ++ b) = posts a ++ posts b.
Proof. apply filter_app. Qed.

Lemma saves_app a b : saves (a ++ b) = saves a ++ saves b.
Proof. apply filter_app. Qed.

Lemma posts_of_calls history message calls :
  calls = []
  \/ calls = [match history with
              | [] => EvGenerateContent message
              | _ :: _ => EvStartChat history message
              end] ->
  posts calls = [] /\ saves calls = [].
Proof. intros [-> | ->]; now destruct history. Qed.



(** X23.  When the service answers a string message with a primary text
    of white space only, the trimmed reply is empty: the exchange ends
    there, nothing is delivered and nothing is saved. *)
Theorem blank_reply_dropped
    (E : env) (sender : json) (safe prompt : str)
    (history : list json) (r : response) (c : char) (s : str)
    (w w1 : world) :
  configured (GEMINI_API_KEY E) = true ->
  load_conversation_history safe w = (Ok history, w1) ->
  gemini E history (JStr prompt) = ApiReturns (Some r) ->
  resp_text r = Text (c :: s) ->
  forallb is_space (c :: s) = true ->
  fst (process_text E sender safe (JStr prompt) w) = Ok tt
  /\ files (snd (process_text E sender safe (JStr prompt) w)) = files w
  /\ posts (trace (snd (process_text E sender safe (JStr prompt) w)))
     = posts (trace w)
  /\ saves (trace (snd (process_text E sender safe (JStr prompt) w)))
     = saves (trace w).
Proof.
  intros Hkey Hload Hapi Htext Hblank.
  destruct (load_conversation_history_run safe w) as [h [Hrun _]].
  rewrite Hrun in Hload. injection Hload as -> <-.
  destruct (get_gemini_response_run E (JStr prompt) history
              (mkWorld (files w) (trace w ++ [EvLoad (file_path safe)])))
    as [reply [calls [Hr [Hf [Ht Hcalls]]]]].
  assert (Hreply : reply = []).
  { assert (Hgen : fst (get_gemini_response E (JStr prompt) history
                          (mkWorld (files w)
                             (trace w ++ [EvLoad (file_path safe)])))
                   = Ok (strip (c :: s))).
    { unfold get_gemini_response. rewrite Hkey. cbn [negb py_slice].
      unfold try_except. rewrite bind_lift_ok.
      unfold call_gemini, bind, emit, ret. rewrite Hapi.
      destruct history; cbn; now rewrite Htext. }
    rewrite Hr in Hgen. injection Hgen as ->. now apply strip_blank. }
  subst reply. unfold process_text. rewrite (bind_ok _ _ _ _ _ Hrun).
  destruct (get_gemini_response E (JStr prompt) history _)
    as [[reply|e] w2] eqn:Hgen; cbn [fst snd] in *; [|discriminate].
  injection Hr as ->. rewrite (bind_ok _ _ _ _ _ Hgen).
  unfold ret. cbn [fst snd]. rewrite Hf, Ht, !posts_app, !saves_app.
  destruct (posts_of_calls _ _ _ Hcalls) as [-> ->]. cbn.
  rewrite !app_nil_r. repeat split.
  - fold (posts (trace w ++ [EvLoad (file_path safe)])).
    rewrite posts_app. cbn. now rewrite app_nil_r.
  - fold (saves (trace w ++ [EvLoad (file_path safe)])).
    rewrite saves_app. cbn. now rewrite app_nil_r.
Qed.

Lemma blank_reply_dropped_witness :
  fst (process_text (env_with (Some (lit "k")) (lit "   ") (fun _ => true))
         (JStr (lit "123")) (lit "123") (JStr (lit "Hello")) empty_world)
  = Ok tt.
Proof.
  eapply (blank_reply_dropped
            (env_with (Some (lit "k")) (lit "   ") (fun _ => true))
            (JStr (lit "123")) (lit "123") (lit "Hello") []
            (mkResponse (Text (lit "   ")) None) 32%N (lit "  ")
            empty_world); reflexivity.
Defined.

(** ** Identity derivation: colliding addresses *)

(** X24.  The storage key has the length of the address, and two
    addresses that differ only in one character that is not alphanumeric
    on either side get the same key, hence share one history file. *)
Theorem safe_sender_id_collision
    (E : env) (front back : str) (c1 c2 : char) :
  isalnum E c1 = false -> isalnum E c2 = false ->
  exists key,
    safe_sender_id E (JStr (front ++ c1 :: back)) = Ok key
    /\ safe_sender_id E (JStr (front ++ c2 :: back)) = Ok key
    /\ length key = length (front ++ c1 :: back).
Proof.
  intros H1 H2. rewrite !safe_sender_id_str. eexists. split; [reflexivity|].
  split; [|now rewrite length_map].
  rewrite !map_app. cbn [map]. now rewrite H1, H2.
Qed.

Lemma safe_sender_id_collision_witness :
  exists key,
    safe_sender_id (env_with None [] (fun _ => true))
                   (JStr (lit "123@s.whatsapp.net")) = Ok key
    /\ safe_sender_id (env_with None [] (fun _ => true))
                      (JStr (lit "123_s.whatsapp.net")) = Ok key.
Proof.
  destruct (safe_sender_id_collision (env_with None [] (fun _ => true))
              (lit "123") (lit "s.whatsapp.net") 64%N 95%N eq_refl eq_refl)
    as [key [H1 [H2 _]]].
  exists key. split; assumption.
Defined.

(** ** The persona *)

(** X25.  Without a usable persona file (missing, unreadable, undecodable
    or not an object) the description is the bare default, without the
    base prompt; with a file that is an object, the description is the
    base prompt, a blank line and the custom description, each replaced by
    its default when absent, so that an empty object already yields the
    base prompt followed by the default description. *)
Theorem load_persona_defaults (render : json -> str) :
  (forall persona_file,
     (forall d, persona_file <> Holds (Document (JDict d))) ->
     load_persona render persona_file
     = (DEFAULT_PERSONA_DESCRIPTION, JStr DEFAULT_PERSONA_NAME))
  /\ (forall d base custom,
        (dict_get d (lit "base_prompt") = Some (JStr base)
         \/ (dict_get d (lit "base_prompt") = None /\ base = BASE_PROMPT)) ->
        (dict_get d (lit "description") = Some (JStr custom)
         \/ (dict_get d (lit "description") = None
             /\ custom = DEFAULT_PERSONA_DESCRIPTION)) ->
        fst (load_persona render (Holds (Document (JDict d))))
        = base ++ [nl; nl] ++ custom).
Proof.
  split.
  - intros persona_file Hno. unfold load_persona.
    destruct persona_file as [| |[|j]]; try reflexivity.
    destruct j; try reflexivity. now destruct (Hno d).
  - intros d base custom Hbase Hcustom. unfold load_persona.
    cbn [read_persona_file rbind py_get fst].
    destruct Hbase as [-> | [-> ->]], Hcustom as [-> | [-> ->]]; reflexivity.
Qed.

Lemma load_persona_defaults_witness :
  load_persona (fun _ => []) Absent
  = (DEFAULT_PERSONA_DESCRIPTION, JStr DEFAULT_PERSONA_NAME)
  /\ fst (load_persona (fun _ => []) (Holds (Document (JDict []))))
     = BASE_PROMPT ++ [nl; nl] ++ DEFAULT_PERSONA_DESCRIPTION.
Proof.
  destruct (load_persona_defaults (fun _ => [])) as [Hmissing Hobject].
  split.
  - apply Hmissing. discriminate.
  - apply Hobject; right; split; reflexivity.
Defined.

(** ** From the generator to the segmenter *)

Lemma words_from_nonempty s : forall acc, acc <> [] -> words_from acc s <> [].
Proof.
  induction s as [|c s IH]; intros acc Hacc; cbn.
  - now destruct acc.
  - destruct (is_space c).
    + now destruct acc.
    + apply IH. now destruct acc.
Qed.

Lemma blank_paragraphs_no_words mc ps :
  Forall (blank_overflow mc) ps -> flat_map words ps = [].
Proof.
  induction 1 as [|p ps [_ Hp] _ IH]; [reflexivity|].
  cbn [flat_map]. now rewrite Hp, IH.
Qed.

(** X26.  A reply that is not empty and starts with a character that is
    not white space, as every trimmed reply of the generator does, is
    segmented into at least one chunk, whatever the bounds. *)
Theorem split_message_trimmed_nonempty
    (reply : str) (max_lines max_chars_per_line : Z) :
  reply <> [] -> trimmed reply ->
  split_message reply max_lines max_chars_per_line <> [].
Proof.
  intros Hne [Hfirst _] Hempty.
  destruct reply as [|c reply]; [congruence|].
  specialize (Hfirst c reply eq_refl).
  assert (Hwords : words (c :: reply) <> []).
  { unfold words. cbn [words_from]. rewrite Hfirst.
    now apply words_from_nonempty. }
  apply Hwords. rewrite <- flat_map_words_split_nl.
  pose proof (split_message_lines (c :: reply) max_lines max_chars_per_line)
    as Hlines.
  destruct (split_paragraphs_no_line max_lines max_chars_per_line
              (split_on nl (c :: reply)) (mkChunker [] [] 0)
              initial_chunker_wf (split_on_pieces (c :: reply)))
    as [[Hall _] | [_ Hline]].
  - now apply (blank_paragraphs_no_words max_chars_per_line).
  - rewrite Hempty in Hlines. cbn [flat_map] in Hlines.
    now rewrite <- Hlines in Hline.
Qed.

Lemma split_message_trimmed_nonempty_witness :
  split_message apology_no_key 3 100 <> [].
Proof.
  apply (split_message_trimmed_nonempty apology_no_key 3 100).
  - discriminate.
  - split; intros c rest H.
    + vm_compute in H. now injection H as <- _.
    + apply (f_equal (@rev char)) in H. rewrite rev_unit in H.
      vm_compute in H. now injection H as <- _.
Defined.
